(** * Entity resolution and relationship aggregation

    A shallow embedding of the two core scripts of the repository,

      - [scripts/04_entity_resolution.py]  (name normalisation, entity map,
        duplicate detection, reverse lookup, mention extraction), and
      - [scripts/05_data_integration.py]   (relationship table),

    followed by the properties that the specification states about them.

    Conventions of the embedding.

      - A Python [str] is a list of characters.  A character is a code point
        below 256, carried by [ascii]; on that range [str.lower],
        [str.isspace] and the regex class [\d] are the functions [lower_char],
        [is_space] and [is_digit] below.
      - A table cell, an identifier or a JSON value that may be missing
        ([NaN]/[None], what [pd.isna] tests) is an [option]: [None] is the
        missing value.
      - A Python [dict] is an association list that keeps insertion order and
        holds every key once: [Dict.set] overwrites in place or appends.
        The missing value is one key, as the one [nan] object of a table of
        strings is.
      - An exception is a value of [exn] carried by [result].
      - [list(set(xs))] has an order that Python does not fix; it is the
        parameter [list_set] of the entity map builder.
      - [rapidfuzz.fuzz.ratio] is a library function outside the repository;
        it is the parameter [ratio] of the duplicate detector, with scores
        in [Q]. *)

From Stdlib Require Import List Bool Arith Lia Ascii String QArith.
Import ListNotations.

Close Scope Q_scope.
Close Scope Z_scope.
Open Scope nat_scope.

Set Implicit Arguments.

(* ================================================================== *)
(** * Part I.  Definitions                                           *)
(* ================================================================== *)

(** ** Decidable equality, as Python's [==] on hashable values *)

Class EqDec (A : Type) := eq_dec : forall x y : A, {x = y} + {x <> y}.

#[export] Instance ascii_EqDec : EqDec ascii := ascii_dec.

#[export] Instance list_EqDec {A : Type} {E : EqDec A} : EqDec (list A) :=
  list_eq_dec eq_dec.

#[export] Instance option_EqDec {A : Type} {E : EqDec A} : EqDec (option A).
Proof. intros x y. unfold EqDec in E. decide equality. Defined.

#[export] Instance prod_EqDec {A B : Type} {EA : EqDec A} {EB : EqDec B} :
  EqDec (A * B).
Proof. intros x y. unfold EqDec in EA, EB. decide equality. Defined.

Definition eqb_of {A : Type} {E : EqDec A} (x y : A) : bool :=
  if eq_dec x y then true else false.

(** ** Python strings *)

Module Py.

Definition text := list ascii.

(** A cell that may hold the missing value. *)
Definition cell := option text.

Definition str (s : string) : text := list_ascii_of_string s.

Arguments str s%_string.

(** [str.lower] on one code point: A-Z, and the upper-case letters of the
    Latin-1 block (all of 0xC0-0xDE but the multiplication sign 0xD7). *)
Definition lower_char (c : ascii) : ascii :=
  let n := nat_of_ascii c in
  if ((65 <=? n) && (n <=? 90))
     || ((192 <=? n) && (n <=? 222) && negb (n =? 215))
  then ascii_of_nat (n + 32)
  else c.

Definition lower (s : text) : text := map lower_char s.

(** [str.isspace] on one code point: TAB, LF, VT, FF, CR, the separators
    0x1C-0x1F, the space, NEL (0x85) and the no-break space (0xA0). *)
Definition is_space (c : ascii) : bool :=
  let n := nat_of_ascii c in
  ((9 <=? n) && (n <=? 13)) || ((28 <=? n) && (n <=? 32))
  || (n =? 133) || (n =? 160).

(** The regex class [\d] on one code point. *)
Definition is_digit (c : ascii) : bool :=
  let n := nat_of_ascii c in (48 <=? n) && (n <=? 57).

(** [s.startswith(p)] *)
Fixpoint starts_with (p s : text) : bool :=
  match p, s with
  | [], _ => true
  | _ :: _, [] => false
  | a :: p', b :: s' => Ascii.eqb a b && starts_with p' s'
  end.

(** [needle in hay] *)
Fixpoint contains (needle hay : text) : bool :=
  starts_with needle hay
  || match hay with
     | [] => false
     | _ :: hay' => contains needle hay'
     end.

(** [s.replace(old, new)]: the occurrences of [old] are found from left to
    right and do not overlap.  [skip] counts the characters of an occurrence
    that are still to be dropped. *)
Fixpoint replace_from (old new : text) (skip : nat) (s : text) : text :=
  match s with
  | [] => []
  | c :: s' =>
      match skip with
      | S k => replace_from old new k s'
      | O =>
          if starts_with old s
          then new ++ replace_from old new (List.length old - 1) s'
          else c :: replace_from old new 0 s'
      end
  end.

Definition replace (old new s : text) : text :=
  match old with
  | [] => new ++ flat_map (fun c => c :: new) s
  | _ :: _ => replace_from old new 0 s
  end.

(** [s.split()]: the maximal runs of characters that are not white space.
    [word] is the run being read. *)
Fixpoint split_from (word : text) (s : text) : list text :=
  match s with
  | [] => match word with [] => [] | _ :: _ => [word] end
  | c :: s' =>
      if is_space c
      then match word with
           | [] => split_from [] s'
           | _ :: _ => word :: split_from [] s'
           end
      else split_from (word ++ [c]) s'
  end.

Definition split (s : text) : list text := split_from [] s.

(** [s.split(sep)] for a separator of one character: never empty. *)
Fixpoint split_on_from (sep : ascii) (field : text) (s : text) : list text :=
  match s with
  | [] => [field]
  | c :: s' =>
      if Ascii.eqb c sep
      then field :: split_on_from sep [] s'
      else split_on_from sep (field ++ [c]) s'
  end.

Definition split_on (sep : ascii) (s : text) : list text :=
  split_on_from sep [] s.

(** [sep.join(words)] *)
Fixpoint join (sep : text) (words : list text) : text :=
  match words with
  | [] => []
  | [w] => w
  | w :: rest => w ++ sep ++ join sep rest
  end.

Fixpoint lstrip (s : text) : text :=
  match s with
  | [] => []
  | c :: s' => if is_space c then lstrip s' else s
  end.

Definition rstrip (s : text) : text := rev (lstrip (rev s)).

(** [s.strip()] *)
Definition strip (s : text) : text := lstrip (rstrip s).

(** Truth value of a string: non-empty. *)
Definition truthy (s : text) : bool :=
  match s with [] => false | _ :: _ => true end.

(** Exceptions raised by the modelled code. *)
Inductive exn : Type :=
| KeyError (key : text)
| AttributeError.

Inductive result (A : Type) : Type :=
| Ok (a : A)
| Raise (e : exn).

Arguments Ok {A} a.
Arguments Raise {A} e.

Definition bind {A B : Type} (m : result A) (f : A -> result B) : result B :=
  match m with
  | Ok a => f a
  | Raise e => Raise e
  end.

End Py.

Notation "x <- m ;; k" := (Py.bind m (fun x => k))
  (at level 61, m at next level, right associativity).

(** ** Python dictionaries *)

Module Dict.
Section Dict.
Context {K V : Type} {E : EqDec K}.

Definition t := list (K * V).

Definition empty : t := [].

(** [d.get(k)] *)
Fixpoint get (k : K) (d : t) : option V :=
  match d with
  | [] => None
  | (k', v) :: d' => if eq_dec k k' then Some v else get k d'
  end.

(** [d[k] = v]: an existing key keeps its place, a new key goes last. *)
Fixpoint set (k : K) (v : V) (d : t) : t :=
  match d with
  | [] => [(k, v)]
  | (k', v') :: d' =>
      if eq_dec k k' then (k', v) :: d' else (k', v') :: set k v d'
  end.

Definition keys (d : t) : list K := map fst d.

Definition mem (k : K) (d : t) : bool :=
  match get k d with Some _ => true | None => false end.
End Dict.
Arguments t : clear implicits.
End Dict.

(** ** [scripts/04_entity_resolution.py] *)

Module Resolution.
Import Py.

(** [normalize_name(name)] *)
Definition normalize_name (name : cell) : text :=
  match name with
  | None => []
  | Some s =>
      let name := lower s in
      (* Remove common suffixes *)
      let name := replace (str " ltd") [] name in
      let name := replace (str " llc") [] name in
      let name := replace (str " inc") [] name in
      let name := replace (str " solutions") [] name in
      let name := replace (str " agro") [] name in
      let name := replace (str " capital") [] name in
      (* Remove punctuation *)
      let name := replace (str ".") [] name in
      let name := replace (str ",") [] name in
      let name := replace (str "-") (str " ") name in
      (* Normalize spaces *)
      join (str " ") (split name)
  end.

(** A cleaned table: its column names and its rows, each row holding one
    cell per column.  [row[col]] raises [KeyError] for a column that the
    table does not have. *)
Record DataFrame : Type := {
  columns : list text;
  rows : list (list cell)
}.

Fixpoint column_index (col : text) (cols : list text) : option nat :=
  match cols with
  | [] => None
  | c :: cols' =>
      if eq_dec col c then Some 0
      else match column_index col cols' with
           | Some i => Some (S i)
           | None => None
           end
  end.

Definition has_column (df : DataFrame) (col : text) : bool :=
  match column_index col (columns df) with Some _ => true | None => false end.

Definition row_get (df : DataFrame) (row : list cell) (col : text)
  : result cell :=
  match column_index col (columns df) with
  | Some i => Ok (nth i row None)
  | None => Raise (KeyError col)
  end.

(** One value of the entity map. *)
Record Entity : Type := {
  canonical_name : cell;
  alternate_names : list text;
  normalized_variants : list text
}.

(** Entity identifiers are cells of the identifier column. *)
Definition entity_id := cell.

Definition EntityMap := Dict.t entity_id Entity.

Section Builder.
(** [list(set(xs))]: the elements of [xs], each once, in an order that
    Python does not fix. *)
Variable list_set : list text -> list text.

(** The alternates of one row:
    [[alt.strip() for alt in str(cell).split(';') if alt.strip()]]
    under the guard
    [alt_names_col and alt_names_col in df.columns and pd.notna(cell)]. *)
Definition parse_alternates (df : DataFrame) (row : list cell)
           (alt_names_col : option text) : result (list text) :=
  match alt_names_col with
  | Some col =>
      if truthy col && has_column df col
      then c <- row_get df row col ;;
           match c with
           | Some s =>
               Ok (map strip
                     (filter (fun alt => truthy (strip alt))
                             (split_on ";"%char s)))
           | None => Ok []
           end
      else Ok []
  | None => Ok []
  end.

(** The body of the loop [for idx, row in df.iterrows()]. *)
Definition build_entity (df : DataFrame) (id_col name_col : text)
           (alt_names_col : option text) (row : list cell)
           (entity_map : EntityMap) : result EntityMap :=
  entity_id <- row_get df row id_col ;;
  canonical_name <- row_get df row name_col ;;
  alternates <- parse_alternates df row alt_names_col ;;
  (* names = [canonical_name] followed by the alternates *)
  let names := canonical_name :: map Some alternates in
  let normalized_names := map normalize_name names in
  Ok (Dict.set entity_id
        {| canonical_name := canonical_name;
           alternate_names := alternates; (* names[1:] *)
           normalized_variants := list_set normalized_names |}
        entity_map).

Fixpoint build_loop (df : DataFrame) (id_col name_col : text)
         (alt_names_col : option text) (todo : list (list cell))
         (entity_map : EntityMap) : result EntityMap :=
  match todo with
  | [] => Ok entity_map
  | row :: todo' =>
      entity_map' <- build_entity df id_col name_col alt_names_col
                                  row entity_map ;;
      build_loop df id_col name_col alt_names_col todo' entity_map'
  end.

(** [build_entity_mapping(df, id_col, name_col, alt_names_col=None)] *)
Definition build_entity_mapping (df : DataFrame) (id_col name_col : text)
           (alt_names_col : option text) : result EntityMap :=
  build_loop df id_col name_col alt_names_col (rows df) Dict.empty.
End Builder.

(** One deterministic choice for [list(set(xs))]: first occurrences, in
    order. *)
Fixpoint dedup (xs : list text) : list text :=
  match xs with
  | [] => []
  | x :: xs' => x :: filter (fun y => negb (eqb_of x y)) (dedup xs')
  end.

(** One row of the duplicate report. *)
Record Duplicate : Type := {
  id1 : entity_id;
  entity1 : cell;
  id2 : entity_id;
  entity2 : cell;
  similarity : Q;
  matched_variants : option (text * text)
}.

Section Detector.
(** [fuzz.ratio] of rapidfuzz. *)
Variable ratio : text -> text -> Q.

(** The state of the two inner loops: [(max_similarity, best_match)]. *)
Definition best := (Q * option (text * text))%type.

Definition compare_variant (name1 name2 : text) (b : best) : best :=
  let similarity := ratio name1 name2 in
  if Qlt_le_dec (fst b) similarity
  then (similarity, Some (name1, name2))
  else b.

Definition compare_variants (variants1 variants2 : list text) : best :=
  fold_left
    (fun b name1 =>
       fold_left (fun b name2 => compare_variant name1 name2 b)
                 variants2 b)
    variants1 (0%Q, None).

(** The body of the loop over [id2]. *)
Definition compare_entities (threshold : Q)
           (e1 e2 : entity_id * Entity) : list Duplicate :=
  let '(max_similarity, best_match) :=
    compare_variants (normalized_variants (snd e1))
                     (normalized_variants (snd e2)) in
  if Qle_bool threshold max_similarity
  then [ {| id1 := fst e1; entity1 := canonical_name (snd e1);
            id2 := fst e2; entity2 := canonical_name (snd e2);
            similarity := max_similarity;
            matched_variants := best_match |} ]
  else [].

(** The loops over [id1] and over the later [id2]; the report grows by
    appending. *)
Fixpoint similar_loop (threshold : Q) (items : list (entity_id * Entity))
         (potential_duplicates : list Duplicate) : list Duplicate :=
  match items with
  | [] => potential_duplicates
  | e1 :: later =>
      similar_loop threshold later
        (fold_left
           (fun acc e2 => acc ++ compare_entities threshold e1 e2)
           later potential_duplicates)
  end.

(** [find_similar_entities(entity_map, threshold)] *)
Definition find_similar_entities (entity_map : EntityMap) (threshold : Q)
  : list Duplicate :=
  similar_loop threshold entity_map [].
End Detector.

Definition ReverseMap := Dict.t text entity_id.

(** The inner loop of [create_reverse_lookup]. *)
Definition add_variants (id : entity_id) (variants : list text)
           (reverse_map : ReverseMap) : ReverseMap :=
  fold_left
    (fun rm variant => if truthy variant then Dict.set variant id rm else rm)
    variants reverse_map.

Definition add_entity (reverse_map : ReverseMap) (item : entity_id * Entity)
  : ReverseMap :=
  let '(id, data) := item in
  let canonical_norm := normalize_name (canonical_name data) in
  let reverse_map := Dict.set canonical_norm id reverse_map in
  add_variants id (normalized_variants data) reverse_map.

(** [create_reverse_lookup(entity_map)] *)
Definition create_reverse_lookup (entity_map : EntityMap) : ReverseMap :=
  fold_left add_entity entity_map Dict.empty.

(** One mention found in a text. *)
Record Mention : Type := {
  mention_id : entity_id;      (* 'entity_id' *)
  entity_name : cell;
  matched_text : text
}.

(** The loop over the alternates, left by [break] at the first hit. *)
Fixpoint check_alternates (text_lower : text) (id : entity_id)
         (canonical : text) (alternates : list text)
         (found_entities : list Mention) : list Mention :=
  match alternates with
  | [] => found_entities
  | alt_name :: rest =>
      if contains (lower alt_name) text_lower
      then found_entities
           ++ [ {| mention_id := id; entity_name := Some canonical;
                   matched_text := alt_name |} ]
      else check_alternates text_lower id canonical rest found_entities
  end.

(** The loop over the entities.  A canonical name that is the missing value
    has no [lower] method. *)
Fixpoint find_loop (text_lower : text) (items : list (entity_id * Entity))
         (found_entities : list Mention) : result (list Mention) :=
  match items with
  | [] => Ok found_entities
  | (id, data) :: items' =>
      match canonical_name data with
      | None => Raise AttributeError
      | Some canonical =>
          if contains (lower canonical) text_lower
          then find_loop text_lower items'
                 (found_entities
                  ++ [ {| mention_id := id; entity_name := Some canonical;
                          matched_text := canonical |} ])
          else find_loop text_lower items'
                 (check_alternates text_lower id canonical
                                   (alternate_names data) found_entities)
      end
  end.

(** [find_entity_in_text(text, entity_map)] *)
Definition find_entity_in_text (text : cell) (entity_map : EntityMap)
  : result (list Mention) :=
  match text with
  | None => Ok []
  | Some s => find_loop (lower s) entity_map []
  end.

End Resolution.

(** ** [scripts/05_data_integration.py] *)

Module Integration.
Import Py Resolution.

Inductive RelationshipType : Type := mentioned_together | prior_interaction.

Inductive SourceType : Type := email | transcript | investor_notes.

#[export] Instance RelationshipType_EqDec : EqDec RelationshipType.
Proof. intros x y. decide equality. Defined.

(** One row of the relationship table. *)
Record Relationship : Type := {
  entity_1 : entity_id;
  entity_1_name : cell;
  entity_2 : entity_id;
  entity_2_name : cell;
  relationship_type : RelationshipType;
  source_type : SourceType;
  source_id : cell
}.

(** One element of [email_mentions] or of [transcript_mentions], as written
    by the entity resolution script: the document's identifier ([email_id],
    [transcript_id]) and the mentions found in it. *)
Record DocMentions : Type := {
  document_id : cell;
  developers : list Mention;
  investors : list Mention
}.

(** The columns of the two cleaned tables that the relationship table
    reads; both tables are taken to carry them, as the upstream interface
    states.  An absent [PriorInteractions] reads as the missing value. *)
Record InvestorRow : Type := {
  InvestorID : cell;
  FundName : cell;
  PriorInteractions : cell
}.

Record DeveloperRow : Type := {
  ProjectID : cell;
  DeveloperID : cell;
  DeveloperName : cell
}.

(** The loops [for dev in developers: for inv in investors:] of one
    document. *)
Definition pair_edges (source : SourceType) (mention : DocMentions)
           (relationships : list Relationship) : list Relationship :=
  fold_left
    (fun acc dev =>
       fold_left
         (fun acc inv =>
            acc ++ [ {| entity_1 := mention_id dev;
                        entity_1_name := entity_name dev;
                        entity_2 := mention_id inv;
                        entity_2_name := entity_name inv;
                        relationship_type := mentioned_together;
                        source_type := source;
                        source_id := document_id mention |} ])
         (investors mention) acc)
    (developers mention) relationships.

Definition document_edges (source : SourceType) (mentions : list DocMentions)
           (relationships : list Relationship) : list Relationship :=
  fold_left (fun acc mention => pair_edges source mention acc)
            mentions relationships.

(** The regular expression [P\d{3}] matched at the head of [s]. *)
Definition match_project_id (s : text) : bool :=
  match s with
  | p :: a :: b :: c :: _ =>
      Ascii.eqb p "P"%char && is_digit a && is_digit b && is_digit c
  | _ => false
  end.

(** [re.findall(r'P\d{3}', s)]: the matches from left to right; the scan
    resumes after the end of each match.  [skip] counts the characters of a
    match that are still to be passed. *)
Fixpoint findall_from (skip : nat) (s : text) : list text :=
  match s with
  | [] => []
  | _ :: s' =>
      match skip with
      | S k => findall_from k s'
      | O =>
          if match_project_id s
          then firstn 4 s :: findall_from 3 s'
          else findall_from 0 s'
      end
  end.

Definition findall_project_ids (s : text) : list text := findall_from 0 s.

(** [developers[developers['ProjectID'] == project_id]] *)
Definition select_project (developers_table : list DeveloperRow)
           (project_id : text) : list DeveloperRow :=
  filter (fun d => eqb_of (ProjectID d) (Some project_id)) developers_table.

(** The body of [for project_id in project_ids]. *)
Definition project_edge (developers_table : list DeveloperRow)
           (row : InvestorRow) (relationships : list Relationship)
           (project_id : text) : list Relationship :=
  match select_project developers_table project_id with
  | [] => relationships
  | dev_row :: _ =>
      relationships
      ++ [ {| entity_1 := InvestorID row;
              entity_1_name := FundName row;
              entity_2 := DeveloperID dev_row;
              entity_2_name := DeveloperName dev_row;
              relationship_type := prior_interaction;
              source_type := investor_notes;
              source_id := InvestorID row |} ]
  end.

(** The body of the loop over the investor rows. *)
Definition investor_edges (developers_table : list DeveloperRow)
           (relationships : list Relationship) (row : InvestorRow)
  : list Relationship :=
  match PriorInteractions row with
  | None => relationships
  | Some interactions_text =>
      fold_left (project_edge developers_table row)
                (findall_project_ids interactions_text) relationships
  end.

(** The list [relationships] before deduplication. *)
Definition generated_edges (developers_table : list DeveloperRow)
           (investors_table : list InvestorRow)
           (email_mentions transcript_mentions : list DocMentions)
  : list Relationship :=
  let relationships := [] in
  let relationships := document_edges email email_mentions relationships in
  let relationships :=
    document_edges transcript transcript_mentions relationships in
  fold_left (investor_edges developers_table) investors_table relationships.

Definition edge_key (r : Relationship)
  : entity_id * entity_id * RelationshipType :=
  (entity_1 r, entity_2 r, relationship_type r).

(** [df.drop_duplicates(subset=[...])]: the default [keep='first'] keeps a
    row when no earlier row has its key. *)
Fixpoint drop_duplicates_from
         (seen : list (entity_id * entity_id * RelationshipType))
         (rs : list Relationship) : list Relationship :=
  match rs with
  | [] => []
  | r :: rs' =>
      if in_dec eq_dec (edge_key r) seen
      then drop_duplicates_from seen rs'
      else r :: drop_duplicates_from (edge_key r :: seen) rs'
  end.

Definition drop_duplicates (rs : list Relationship) : list Relationship :=
  drop_duplicates_from [] rs.

(** [create_relationships_table(datasets, email_mentions,
    transcript_mentions)], with [datasets['developers']] and
    [datasets['investors']] as the two tables. *)
Definition create_relationships_table (developers_table : list DeveloperRow)
           (investors_table : list InvestorRow)
           (email_mentions transcript_mentions : list DocMentions)
  : list Relationship :=
  let df := generated_edges developers_table investors_table
                            email_mentions transcript_mentions in
  match df with
  | [] => df
  | _ :: _ => drop_duplicates df
  end.

End Integration.

(** ** The order of operations that the specification gives for the
       normalizer *)

Module SpecNormalizer.
Import Py.

(** The organizational suffixes, longest first. *)
Definition suffixes : list text :=
  [str "solutions"; str "capital"; str "agro"; str "ltd"; str "llc";
   str "inc"].

Definition ends_with (suffix s : text) : bool :=
  starts_with (rev suffix) (rev s).

(** Strip the first suffix of the list that ends the name. *)
Fixpoint strip_suffix (sufs : list text) (s : text) : text :=
  match sufs with
  | [] => s
  | suf :: sufs' =>
      if ends_with suf s
      then firstn (List.length s - List.length suf) s
      else strip_suffix sufs' s
  end.

Definition punctuation_to_space (c : ascii) : ascii :=
  if Ascii.eqb c "."%char || Ascii.eqb c ","%char || Ascii.eqb c "-"%char
  then " "%char
  else c.

(** lower-case, strip a suffix at the end, replace [.], [,] and [-] with a
    space, collapse white space, trim. *)
Definition normalize (s : text) : text :=
  join (str " ")
       (split (map punctuation_to_space (strip_suffix suffixes (lower s)))).

End SpecNormalizer.

(** ** The order of operations of [normalize_name], step by step *)

Module Steps.
Import Py.

(** The patterns that [normalize_name] deletes, in the order of the code. *)
Definition suffix_patterns : list text :=
  [str " ltd"; str " llc"; str " inc"; str " solutions"; str " agro";
   str " capital"].

(** Delete the occurrences of each pattern, one pattern after the other. *)
Definition delete_patterns (pats : list text) (s : text) : text :=
  fold_left (fun s pat => replace pat [] s) pats s.

Definition is_period_or_comma (c : ascii) : bool :=
  Ascii.eqb c "."%char || Ascii.eqb c ","%char.

Definition hyphen_to_space (c : ascii) : ascii :=
  if Ascii.eqb c "-"%char then " "%char else c.

(** Delete the periods and commas, turn each hyphen into a space, collapse
    the white space and trim. *)
Definition tidy (s : text) : text :=
  join (str " ")
       (split
          (map hyphen_to_space
               (filter (fun c => negb (is_period_or_comma c)) s))).

Definition pipeline (s : text) : text :=
  tidy (delete_patterns suffix_patterns (lower s)).

End Steps.

(** ** The vocabulary of the statements *)

Module Vocabulary.
Import Py Resolution Integration Steps.

Definition no_space (w : text) : Prop := Forall (fun c => is_space c = false) w.

(** A word of [split]: not empty, no white space. *)
Definition is_word (w : text) : Prop := w <> [] /\ no_space w.


(** The characters of a normalized name: their own lower case, and none of
    the three punctuation marks. *)
Definition clean_char (c : ascii) : Prop :=
  lower_char c = c /\ is_period_or_comma c = false
  /\ Ascii.eqb c "-"%char = false.

(** What links an entry of the entity map to the record it was built
    from. *)
Definition built_from (list_set : list text -> list text) (df : DataFrame)
           (id_col name_col : text) (alt_names_col : option text)
           (row : list cell) (i : entity_id) (e : Entity) : Prop :=
  row_get df row id_col = Ok i
  /\ row_get df row name_col = Ok (canonical_name e)
  /\ parse_alternates df row alt_names_col = Ok (alternate_names e)
  /\ normalized_variants e
     = list_set (map normalize_name
                     (canonical_name e :: map Some (alternate_names e))).

(** The keys that [create_reverse_lookup] assigns for one entity: its
    normalized canonical name, and its non-empty normalized variants. *)
Definition writes (e : Entity) (v : text) : Prop :=
  normalize_name (canonical_name e) = v
  \/ (In v (normalized_variants e) /\ v <> []).

(** An entity has a name when the name is one of its normalized variants or
    its normalized canonical name. *)
Definition has_name (e : Entity) (v : text) : Prop :=
  In v (normalized_variants e) \/ normalize_name (canonical_name e) = v.

(** A name occurs in a text when its lower case is a substring of the lower
    case of the text. *)
Definition occurs_in (name text_lower : text) : bool :=
  contains (lower name) text_lower.

(** The mentions expected for one entity: one for the canonical name when it
    occurs, else one for the first alternate name that occurs, else none. *)
Definition expected_mentions (text_lower : text) (item : entity_id * Entity)
  : list Mention :=
  match canonical_name (snd item) with
  | None => []
  | Some canonical =>
      if occurs_in canonical text_lower
      then [ {| mention_id := fst item; entity_name := Some canonical;
                matched_text := canonical |} ]
      else match find (fun alt => occurs_in alt text_lower)
                      (alternate_names (snd item)) with
           | Some alt => [ {| mention_id := fst item;
                              entity_name := Some canonical;
                              matched_text := alt |} ]
           | None => []
           end
  end.

(** Every canonical name of the map is a string. *)
Definition named (m : EntityMap) : Prop :=
  Forall (fun item => canonical_name (snd item) <> None) m.

Section Scores.
Variable ratio : text -> text -> Q.

(** The report of the detector, pair by pair. *)
Fixpoint candidates (threshold : Q) (items : list (entity_id * Entity))
  : list Duplicate :=
  match items with
  | [] => []
  | e1 :: later =>
      flat_map (compare_entities ratio threshold e1) later
      ++ candidates threshold later
  end.

(** The state of the loops: nothing recorded and score 0, or the recorded
    pair and its ratio. *)
Definition attained (variants1 variants2 : list text) (b : best) : Prop :=
  match snd b with
  | None => fst b = 0%Q
  | Some (name1, name2) =>
      In name1 variants1 /\ In name2 variants2 /\ fst b = ratio name1 name2
  end.

End Scores.

(** The edges of one document, pair by pair. *)
Definition pairs (source : SourceType) (mention : DocMentions)
  : list Relationship :=
  flat_map
    (fun dev =>
       map (fun inv =>
              {| entity_1 := mention_id dev;
                 entity_1_name := entity_name dev;
                 entity_2 := mention_id inv;
                 entity_2_name := entity_name inv;
                 relationship_type := mentioned_together;
                 source_type := source;
                 source_id := document_id mention |})
           (investors mention))
    (developers mention).

(** The tokens of a text: at every position, the four characters found
    there when they are a [P] and three digits. *)
Fixpoint tokens (s : text) : list text :=
  match s with
  | [] => []
  | _ :: s' =>
      (if match_project_id s then [firstn 4 s] else []) ++ tokens s'
  end.

(** The edge of one investor and one developer row. *)
Definition note_edge (row : InvestorRow) (dev_row : DeveloperRow)
  : Relationship :=
  {| entity_1 := InvestorID row;
     entity_1_name := FundName row;
     entity_2 := DeveloperID dev_row;
     entity_2_name := DeveloperName dev_row;
     relationship_type := prior_interaction;
     source_type := investor_notes;
     source_id := InvestorID row |}.

(** The edges of one investor row: one per token that the project table
    resolves, in the order of the text. *)
Definition notes (developers_table : list DeveloperRow) (row : InvestorRow)
  : list Relationship :=
  match PriorInteractions row with
  | None => []
  | Some interactions_text =>
      flat_map
        (fun project_id =>
           match select_project developers_table project_id with
           | [] => []
           | dev_row :: _ => [note_edge row dev_row]
           end)
        (tokens interactions_text)
  end.

(** The edges in generation order. *)
Definition generation_order (developers_table : list DeveloperRow)
           (investors_table : list InvestorRow)
           (email_mentions transcript_mentions : list DocMentions)
  : list Relationship :=
  flat_map (pairs email) email_mentions
  ++ flat_map (pairs transcript) transcript_mentions
  ++ flat_map (notes developers_table) investors_table.

End Vocabulary.

(** ** Sample inputs *)

Module Samples.

(** Sample tables. *)
Definition developers_sample : Resolution.DataFrame :=
  {| Resolution.columns :=
       [Py.str "DeveloperID"; Py.str "DeveloperName"; Py.str "AlternateNames"];
     Resolution.rows :=
       [[Some (Py.str "D1"); Some (Py.str "Acme Ltd");
         Some (Py.str "Acme; -")]] |}.

Definition acme_entity : Resolution.Entity :=
  {| Resolution.canonical_name := Some (Py.str "Acme Ltd");
     Resolution.alternate_names := [Py.str "Acme"; Py.str "-"];
     Resolution.normalized_variants := [Py.str "acme"; Py.str ""] |}.

Definition unidentified_sample : Resolution.DataFrame :=
  {| Resolution.columns := [Py.str "DeveloperID"; Py.str "DeveloperName"];
     Resolution.rows := [[None; Some (Py.str "Acme")]] |}.

Definition acme_capital_entity : Resolution.Entity :=
  {| Resolution.canonical_name := Some (Py.str "Acme Capital");
     Resolution.alternate_names := [];
     Resolution.normalized_variants := [Py.str "acme"] |}.

Definition nameless_entity : Resolution.Entity :=
  {| Resolution.canonical_name := Some (Py.str " Ltd");
     Resolution.alternate_names := [];
     Resolution.normalized_variants := [Py.str ""] |}.

Definition verdenova_entity : Resolution.Entity :=
  {| Resolution.canonical_name := Some (Py.str "VerdeNova Solutions");
     Resolution.alternate_names := [Py.str "Verde Nova"];
     Resolution.normalized_variants :=
       [Py.str "verdenova"; Py.str "verde nova"] |}.

(** A stand-in for the library's ratio, for examples: 100 for equal strings
    and 40 otherwise. *)
Definition exact_ratio (a b : Py.text) : Q :=
  if eqb_of a b then 100%Q else 40%Q.

Definition three_entities : Resolution.EntityMap :=
  [(Some (Py.str "D1"), acme_entity);
   (Some (Py.str "D2"), acme_capital_entity);
   (Some (Py.str "D3"), verdenova_entity)].

(** Sample inputs of the relationship table. *)
Definition mention_d1 : Resolution.Mention :=
  {| Resolution.mention_id := Some (Py.str "D1");
     Resolution.entity_name := Some (Py.str "VerdeNova Solutions");
     Resolution.matched_text := Py.str "VerdeNova Solutions" |}.

Definition mention_i1 : Resolution.Mention :=
  {| Resolution.mention_id := Some (Py.str "I1");
     Resolution.entity_name := Some (Py.str "NorthStar Capital");
     Resolution.matched_text := Py.str "NorthStar Capital" |}.

Definition email_e001 : Integration.DocMentions :=
  {| Integration.document_id := Some (Py.str "E001");
     Integration.developers := [mention_d1];
     Integration.investors := [mention_i1] |}.

Definition transcript_t001 : Integration.DocMentions :=
  {| Integration.document_id := Some (Py.str "T001");
     Integration.developers := [mention_d1];
     Integration.investors := [mention_i1] |}.

Definition investor_i2 : Integration.InvestorRow :=
  {| Integration.InvestorID := Some (Py.str "I2");
     Integration.FundName := Some (Py.str "Blue Fund");
     Integration.PriorInteractions :=
       Some (Py.str "Discussed P001 financing") |}.

Definition developer_d3 : Integration.DeveloperRow :=
  {| Integration.ProjectID := Some (Py.str "P001");
     Integration.DeveloperID := Some (Py.str "D3");
     Integration.DeveloperName := Some (Py.str "Dev Three") |}.

End Samples.

(** ** [scripts/04_entity_resolution.py]: the loops of [main] *)

Module ResolutionMain.
Import Py Resolution Integration.

(** [row.get(col, default)]: the cell, or [default] for a column that the
    table does not have. *)
Definition row_get_default (df : DataFrame) (row : list cell) (col : text)
           (default : cell) : cell :=
  match column_index col (columns df) with
  | Some i => nth i row None
  | None => default
  end.

(** [str(x)] of a cell: its text, or ['nan'] for the missing value. *)
Definition str_of (c : cell) : text :=
  match c with
  | Some s => s
  | None => str "nan"
  end.

(** Truth value of a list: non-empty. *)
Definition nonempty {A : Type} (l : list A) : bool :=
  match l with [] => false | _ :: _ => true end.

(** [str(row.get('Subject', '')) + ' ' + str(row.get('Body', ''))] *)
Definition email_text (emails : DataFrame) (row : list cell) : text :=
  str_of (row_get_default emails row (str "Subject") (Some []))
  ++ str " "
  ++ str_of (row_get_default emails row (str "Body") (Some [])).

(** [str(row.get('TranscriptText', ''))] *)
Definition transcript_text (transcripts : DataFrame) (row : list cell)
  : text :=
  str_of (row_get_default transcripts row (str "TranscriptText") (Some [])).

(** The loop [for idx, row in datasets['emails'].iterrows()]. *)
Fixpoint email_loop (developer_map investor_map : EntityMap)
         (emails : DataFrame) (todo : list (list cell))
         (email_mentions : list DocMentions) : result (list DocMentions) :=
  match todo with
  | [] => Ok email_mentions
  | row :: todo' =>
      let text := email_text emails row in
      devs_found <- find_entity_in_text (Some text) developer_map ;;
      invs_found <- find_entity_in_text (Some text) investor_map ;;
      if nonempty devs_found || nonempty invs_found
      then email_loop developer_map investor_map emails todo'
             (email_mentions
              ++ [ {| document_id :=
                        row_get_default emails row (str "EmailID") None;
                      developers := devs_found;
                      investors := invs_found |} ])
      else email_loop developer_map investor_map emails todo' email_mentions
  end.

(** The loop [for idx, row in datasets['transcripts'].iterrows()]. *)
Fixpoint transcript_loop (developer_map investor_map : EntityMap)
         (transcripts : DataFrame) (todo : list (list cell))
         (transcript_mentions : list DocMentions)
  : result (list DocMentions) :=
  match todo with
  | [] => Ok transcript_mentions
  | row :: todo' =>
      let text := transcript_text transcripts row in
      devs_found <- find_entity_in_text (Some text) developer_map ;;
      invs_found <- find_entity_in_text (Some text) investor_map ;;
      if nonempty devs_found || nonempty invs_found
      then transcript_loop developer_map investor_map transcripts todo'
             (transcript_mentions
              ++ [ {| document_id :=
                        row_get_default transcripts row
                                        (str "TranscriptID") None;
                      developers := devs_found;
                      investors := invs_found |} ])
      else transcript_loop developer_map investor_map transcripts todo'
                           transcript_mentions
  end.

(** What [main] returns. *)
Record Resolved : Type := {
  developer_map : EntityMap;
  investor_map : EntityMap;
  email_mentions : list DocMentions;
  transcript_mentions : list DocMentions
}.

(** [main()], from the four cleaned tables to its result; the steps that
    only print or save are left out. *)
Definition main (list_set : list text -> list text)
           (developers_df investors_df emails transcripts : DataFrame)
  : result Resolved :=
  developer_map <- build_entity_mapping list_set developers_df
                     (str "DeveloperID") (str "DeveloperName")
                     (Some (str "AlternateNames")) ;;
  investor_map <- build_entity_mapping list_set investors_df
                    (str "InvestorID") (str "FundName") None ;;
  email_mentions <- email_loop developer_map investor_map emails
                               (rows emails) [] ;;
  transcript_mentions <- transcript_loop developer_map investor_map
                           transcripts (rows transcripts) [] ;;
  Ok {| developer_map := developer_map;
        investor_map := investor_map;
        email_mentions := email_mentions;
        transcript_mentions := transcript_mentions |}.

End ResolutionMain.

(** ** [scripts/05_data_integration.py]: the other tables *)

Module Tables.
Import Py Resolution Integration ResolutionMain.

(** The lambda of [create_enriched_projects_table]:
    [[name.strip() for name in str(x).split(';')] if pd.notna(x) else []]. *)
Definition alternate_names_list (x : cell) : list text :=
  match x with
  | Some s => map strip (split_on ";"%char s)
  | None => []
  end.

(** The column [alternate_names_list], added when the table has the column
    [AlternateNames]. *)
Definition alternate_names_column (projects : DataFrame)
  : option (list (list text)) :=
  if has_column projects (str "AlternateNames")
  then Some (map (fun row =>
                    alternate_names_list
                      (row_get_default projects row (str "AlternateNames")
                                       None))
                 (rows projects))
  else None.

Inductive CommunicationType : Type :=
| email_communication
| transcript_communication.

(** One row of the communications table; [sender] and [recipient] are the
    columns ['from'] and ['to']. *)
Record Communication : Type := {
  communication_id : cell;
  communication_type : CommunicationType;
  date : cell;
  sender : cell;
  recipient : cell;
  subject : cell;
  body : cell;
  mentioned_developers : text;
  mentioned_investors : text
}.

(** [a == b] on identifiers read from a table or from JSON: the missing
    value is equal to nothing, itself included. *)
Definition cell_eqb (a b : cell) : bool :=
  match a, b with
  | Some x, Some y => eqb_of x y
  | _, _ => false
  end.

(** [next((m for m in mentions if m[...] == doc_id), None)] *)
Definition first_mentions (mentions : list DocMentions) (doc_id : cell)
  : option DocMentions :=
  find (fun m => cell_eqb (document_id m) doc_id) mentions.

Section Communications.
(** [json.dumps] on a list of identifiers. *)
Variable dumps : list entity_id -> text.

(** The body of the loop over the emails. *)
Definition email_communication_of (emails : DataFrame)
           (email_mentions : list DocMentions) (row : list cell)
  : result Communication :=
  email_id <- row_get emails row (str "EmailID") ;;
  let mentions := first_mentions email_mentions email_id in
  let developer_ids :=
    match mentions with
    | Some m => map mention_id (developers m)
    | None => []
    end in
  let investor_ids :=
    match mentions with
    | Some m => map mention_id (investors m)
    | None => []
    end in
  Ok {| communication_id := email_id;
        communication_type := email_communication;
        date := row_get_default emails row (str "Date") None;
        sender := row_get_default emails row (str "From") None;
        recipient := row_get_default emails row (str "To") None;
        subject := row_get_default emails row (str "Subject") None;
        body := row_get_default emails row (str "Body") None;
        mentioned_developers := dumps developer_ids;
        mentioned_investors := dumps investor_ids |}.

(** The body of the loop over the transcripts. *)
Definition transcript_communication_of (transcripts : DataFrame)
           (transcript_mentions : list DocMentions) (row : list cell)
  : result Communication :=
  transcript_id <- row_get transcripts row (str "TranscriptID") ;;
  let mentions := first_mentions transcript_mentions transcript_id in
  let developer_ids :=
    match mentions with
    | Some m => map mention_id (developers m)
    | None => []
    end in
  let investor_ids :=
    match mentions with
    | Some m => map mention_id (investors m)
    | None => []
    end in
  Ok {| communication_id := transcript_id;
        communication_type := transcript_communication;
        date := None;
        sender := None;
        recipient := None;
        subject := None;
        body := row_get_default transcripts row (str "TranscriptText") None;
        mentioned_developers := dumps developer_ids;
        mentioned_investors := dumps investor_ids |}.

(** A loop [for idx, row in df.iterrows()] that appends one communication
    per row. *)
Fixpoint communications_loop
         (of_row : list cell -> result Communication)
         (todo : list (list cell)) (communications : list Communication)
  : result (list Communication) :=
  match todo with
  | [] => Ok communications
  | row :: todo' =>
      c <- of_row row ;;
      communications_loop of_row todo' (communications ++ [c])
  end.

(** [create_communications_table(datasets, email_mentions,
    transcript_mentions)] *)
Definition create_communications_table (emails transcripts : DataFrame)
           (email_mentions transcript_mentions : list DocMentions)
  : result (list Communication) :=
  communications <-
    communications_loop (email_communication_of emails email_mentions)
                        (rows emails) [] ;;
  communications_loop
    (transcript_communication_of transcripts transcript_mentions)
    (rows transcripts) communications.

End Communications.

End Tables.

(** ** Further vocabulary of the statements *)

Module Notions.
Import Py Resolution Integration ResolutionMain Tables Vocabulary.

(** The mentions of the entities of a map in a text. *)
Definition found_in (m : EntityMap) (doc_text : text) : list Mention :=
  flat_map (expected_mentions (lower doc_text)) m.

(** The entries of the mention list for the rows of a table: one for each
    row in whose text a developer or an investor is found. *)
Definition entries_of (developer_map investor_map : EntityMap)
           (id_of : list cell -> cell) (text_of : list cell -> text)
           (table_rows : list (list cell)) : list DocMentions :=
  flat_map
    (fun row =>
       if nonempty (found_in developer_map (text_of row))
          || nonempty (found_in investor_map (text_of row))
       then [ {| document_id := id_of row;
                 developers := found_in developer_map (text_of row);
                 investors := found_in investor_map (text_of row) |} ]
       else [])
    table_rows.

(** Some entity of the map has a missing canonical name. *)
Definition nameless (m : EntityMap) : Prop :=
  exists id e, In (id, e) m /\ canonical_name e = None.

End Notions.

(** ** Further sample inputs *)

Module MoreSamples.
Import Samples.

(** The pair that the detector reports for [three_entities] under
    [exact_ratio]. *)
Definition acme_pair : Resolution.Duplicate :=
  {| Resolution.id1 := Some (Py.str "D1");
     Resolution.entity1 := Some (Py.str "Acme Ltd");
     Resolution.id2 := Some (Py.str "D2");
     Resolution.entity2 := Some (Py.str "Acme Capital");
     Resolution.similarity := 100%Q;
     Resolution.matched_variants := Some (Py.str "acme", Py.str "acme") |}.

(** Two records of one identifier. *)
Definition renamed_sample : Resolution.DataFrame :=
  {| Resolution.columns :=
       [Py.str "DeveloperID"; Py.str "DeveloperName"; Py.str "AlternateNames"];
     Resolution.rows :=
       [[Some (Py.str "D1"); Some (Py.str "Acme Ltd");
         Some (Py.str "Acme; -")];
        [Some (Py.str "D1"); Some (Py.str "Acme Capital"); None]] |}.

Definition two_entities : Resolution.EntityMap :=
  [(Some (Py.str "D1"), acme_entity); (Some (Py.str "D3"), verdenova_entity)].

(** An entity whose name is the empty string. *)
Definition blank_entity : Resolution.Entity :=
  {| Resolution.canonical_name := Some (Py.str "");
     Resolution.alternate_names := [];
     Resolution.normalized_variants := [Py.str ""] |}.

Definition arr_text : Py.text :=
  Py.str "Contact VerdeNova Solutions about ARR".

(** The edge of the notes of [investor_i2]. *)
Definition edge_i2_d3 : Integration.Relationship :=
  {| Integration.entity_1 := Some (Py.str "I2");
     Integration.entity_1_name := Some (Py.str "Blue Fund");
     Integration.entity_2 := Some (Py.str "D3");
     Integration.entity_2_name := Some (Py.str "Dev Three");
     Integration.relationship_type := Integration.prior_interaction;
     Integration.source_type := Integration.investor_notes;
     Integration.source_id := Some (Py.str "I2") |}.

(** Cleaned tables. *)
Definition unnamed_developers : Resolution.DataFrame :=
  {| Resolution.columns := [Py.str "DeveloperID"; Py.str "DeveloperName"];
     Resolution.rows := [[Some (Py.str "D1"); None]] |}.

Definition verdenova_developers : Resolution.DataFrame :=
  {| Resolution.columns :=
       [Py.str "DeveloperID"; Py.str "DeveloperName"; Py.str "AlternateNames"];
     Resolution.rows :=
       [[Some (Py.str "D1"); Some (Py.str "VerdeNova Solutions");
         Some (Py.str "Verde Nova")]] |}.

Definition northstar_investors : Resolution.DataFrame :=
  {| Resolution.columns := [Py.str "InvestorID"; Py.str "FundName"];
     Resolution.rows :=
       [[Some (Py.str "I1"); Some (Py.str "NorthStar Capital")]] |}.

Definition northstar_entity : Resolution.Entity :=
  {| Resolution.canonical_name := Some (Py.str "NorthStar Capital");
     Resolution.alternate_names := [];
     Resolution.normalized_variants := [Py.str "northstar"] |}.

Definition intro_emails : Resolution.DataFrame :=
  {| Resolution.columns := [Py.str "EmailID"; Py.str "Subject"; Py.str "Body"];
     Resolution.rows :=
       [[Some (Py.str "E001"); Some (Py.str "Intro");
         Some (Py.str "VerdeNova Solutions meets NorthStar Capital")]] |}.

Definition no_transcripts : Resolution.DataFrame :=
  {| Resolution.columns := [Py.str "TranscriptID"; Py.str "TranscriptText"];
     Resolution.rows := [] |}.

Definition unnamed_entity : Resolution.Entity :=
  {| Resolution.canonical_name := None;
     Resolution.alternate_names := [];
     Resolution.normalized_variants := [Py.str ""] |}.

(** What [main] returns for the developers [verdenova_developers], the
    investors [northstar_investors], the emails [intro_emails] and no
    transcript. *)
Definition resolved_sample : ResolutionMain.Resolved :=
  {| ResolutionMain.developer_map := [(Some (Py.str "D1"), verdenova_entity)];
     ResolutionMain.investor_map := [(Some (Py.str "I1"), northstar_entity)];
     ResolutionMain.email_mentions := [email_e001];
     ResolutionMain.transcript_mentions := [] |}.

Definition intro_row : list Py.cell :=
  [Some (Py.str "E001"); Some (Py.str "Intro");
   Some (Py.str "VerdeNova Solutions meets NorthStar Capital")].



(** A stand-in for [json.dumps] on a list of identifiers. *)
Definition plain_dumps (ids : list Resolution.entity_id) : Py.text :=
  flat_map (fun i => match i with
                     | Some s => s ++ Py.str ";"
                     | None => Py.str "null;"
                     end) ids.

(** An email without identifier, and the entry that [main] files for it. *)
Definition anonymous_row : list Py.cell :=
  [None; Some (Py.str "Intro");
   Some (Py.str "VerdeNova Solutions meets NorthStar Capital")].

Definition anonymous_emails : Resolution.DataFrame :=
  {| Resolution.columns := [Py.str "EmailID"; Py.str "Subject"; Py.str "Body"];
     Resolution.rows := [anonymous_row] |}.

Definition anonymous_mentions : Integration.DocMentions :=
  {| Integration.document_id := None;
     Integration.developers := [mention_d1];
     Integration.investors := [mention_i1] |}.

Definition anonymous_communication : Tables.Communication :=
  {| Tables.communication_id := None;
     Tables.communication_type := Tables.email_communication;
     Tables.date := None;
     Tables.sender := None;
     Tables.recipient := None;
     Tables.subject := Some (Py.str "Intro");
     Tables.body :=
       Some (Py.str "VerdeNova Solutions meets NorthStar Capital");
     Tables.mentioned_developers := [];
     Tables.mentioned_investors := [] |}.

(** The row of the communications table for [intro_row]. *)
Definition intro_communication : Tables.Communication :=
  {| Tables.communication_id := Some (Py.str "E001");
     Tables.communication_type := Tables.email_communication;
     Tables.date := None;
     Tables.sender := None;
     Tables.recipient := None;
     Tables.subject := Some (Py.str "Intro");
     Tables.body :=
       Some (Py.str "VerdeNova Solutions meets NorthStar Capital");
     Tables.mentioned_developers := Py.str "D1;";
     Tables.mentioned_investors := Py.str "I1;" |}.

End MoreSamples.

(* ================================================================== *)
(** * Part II.  Properties                                           *)
(* ================================================================== *)

(** ** Strings *)

Section TextFacts.
Import Py Vocabulary.

Lemma lower_char_idem (c : ascii) : lower_char (lower_char c) = lower_char c.
Proof. destruct c as [[] [] [] [] [] [] [] []]; vm_compute; reflexivity. Qed.

Lemma starts_with_single (c x : ascii) (s : text) :
  starts_with [c] (x :: s) = Ascii.eqb x c.
Proof. simpl. rewrite andb_true_r. apply Ascii.eqb_sym. Qed.

(** Replacing a pattern of one character works character by character. *)
Lemma replace_single (c : ascii) (new s : text) :
  replace [c] new s = flat_map (fun x => if Ascii.eqb x c then new else [x]) s.
Proof.
  unfold replace.
  induction s as [|x s IH]; [reflexivity|].
  cbn [replace_from flat_map List.length Nat.sub].
  rewrite starts_with_single.
  destruct (Ascii.eqb x c); rewrite IH; reflexivity.
Qed.

Lemma replace_single_delete (c : ascii) (s : text) :
  replace [c] [] s = filter (fun x => negb (Ascii.eqb x c)) s.
Proof.
  rewrite replace_single.
  induction s as [|x s IH]; [reflexivity|].
  simpl. destruct (Ascii.eqb x c); simpl; rewrite IH; reflexivity.
Qed.

Lemma replace_single_map (c d : ascii) (s : text) :
  replace [c] [d] s = map (fun x => if Ascii.eqb x c then d else x) s.
Proof.
  rewrite replace_single.
  induction s as [|x s IH]; [reflexivity|].
  simpl. destruct (Ascii.eqb x c); simpl; rewrite IH; reflexivity.
Qed.

Lemma filter_twice {A : Type} (p q : A -> bool) (l : list A) :
  filter q (filter p l) = filter (fun x => p x && q x) l.
Proof.
  induction l as [|x l IH]; [reflexivity|].
  simpl. destruct (p x); simpl; [destruct (q x)|]; rewrite IH; reflexivity.
Qed.

(** A pattern that does not occur is not replaced. *)
Lemma replace_from_absent (old new s : text) :
  contains old s = false -> replace_from old new 0 s = s.
Proof.
  induction s as [|x s IH]; [reflexivity|].
  cbn [contains replace_from]. intros H.
  apply orb_false_iff in H. destruct H as [H1 H2].
  rewrite H1. f_equal. apply IH, H2.
Qed.

Lemma replace_absent (old new s : text) :
  contains old s = false -> replace old new s = s.
Proof.
  destruct old as [|c old].
  - destruct s; discriminate.
  - apply replace_from_absent.
Qed.

(** Deleting never makes a string longer, and makes it shorter when the
    pattern occurs. *)
Lemma replace_from_delete_length (old s : text) (k : nat) :
  List.length (replace_from old [] k s) <= List.length s.
Proof.
  revert k. induction s as [|x s IH]; intros k; [reflexivity|].
  cbn [replace_from]. destruct k as [|k].
  - destruct (starts_with old (x :: s)); simpl.
    + specialize (IH (List.length old - 1)). lia.
    + specialize (IH 0). lia.
  - simpl. specialize (IH k). lia.
Qed.

Lemma replace_from_delete_shrinks (old s : text) :
  old <> [] -> contains old s = true ->
  List.length (replace_from old [] 0 s) < List.length s.
Proof.
  intros Hold. induction s as [|x s IH].
  - destruct old; [contradiction | discriminate].
  - cbn [contains replace_from]. intros H.
    destruct (starts_with old (x :: s)) eqn:Hs.
    + simpl. pose proof (replace_from_delete_length old s (List.length old - 1)).
      lia.
    + simpl in H. simpl. apply IH in H. lia.
Qed.

Lemma replace_from_Forall (P : ascii -> Prop) (old new s : text) (k : nat) :
  Forall P new -> Forall P s -> Forall P (replace_from old new k s).
Proof.
  intros Hnew. revert k. induction s as [|x s IH]; intros k Hs.
  - constructor.
  - inversion Hs; subst. cbn [replace_from]. destruct k.
    + destruct (starts_with old (x :: s)).
      * apply Forall_app; split; auto.
      * constructor; auto.
    + auto.
Qed.

Lemma replace_Forall (P : ascii -> Prop) (old s : text) :
  old <> [] -> Forall P s -> Forall P (replace old [] s).
Proof.
  destruct old; [contradiction|]. intros _.
  apply replace_from_Forall. constructor.
Qed.

End TextFacts.

(** ** Splitting at white space and joining *)

Section Words.
Import Py Vocabulary.

Lemma split_from_no_space (u w s : text) :
  no_space u -> split_from w (u ++ s) = split_from (w ++ u) s.
Proof.
  intros Hu. revert w. induction Hu as [|c u Hc Hu IH]; intros w.
  - rewrite app_nil_r. reflexivity.
  - simpl. rewrite Hc, IH, <- app_assoc. reflexivity.
Qed.

Lemma split_from_space (c : ascii) (w s : text) :
  is_space c = true -> w <> [] ->
  split_from w (c :: s) = w :: split_from [] s.
Proof.
  intros Hc Hw. simpl. rewrite Hc. destruct w; [contradiction | reflexivity].
Qed.

Lemma split_join (ws : list text) :
  Forall is_word ws -> split (join (str " ") ws) = ws.
Proof.
  unfold split. induction 1 as [|u ws [Hne Hu] Hws IH]; [reflexivity|].
  destruct ws as [|v ws].
  - pose proof (split_from_no_space [] [] Hu) as E.
    rewrite app_nil_r in E. simpl join. rewrite E.
    simpl. destruct u; [contradiction | reflexivity].
  - change (join (str " ") (u :: v :: ws))
      with (u ++ " "%char :: join (str " ") (v :: ws)).
    rewrite split_from_no_space by assumption. simpl app.
    rewrite split_from_space by (assumption || reflexivity).
    rewrite IH. reflexivity.
Qed.

Lemma split_from_words (w s : text) :
  no_space w -> Forall is_word (split_from w s).
Proof.
  revert w. induction s as [|c s IH]; intros w Hw.
  - destruct w; simpl; [constructor|].
    constructor; [split; [discriminate | assumption] | constructor].
  - simpl. destruct (is_space c) eqn:Hc.
    + destruct w.
      * apply IH. constructor.
      * constructor; [split; [discriminate | assumption] |].
        apply IH. constructor.
    + apply IH. apply Forall_app; split; [assumption|]. repeat constructor.
      assumption.
Qed.

Lemma split_words (s : text) : Forall is_word (split s).
Proof. apply split_from_words. constructor. Qed.

Lemma split_from_Forall (P : ascii -> Prop) (w s : text) :
  Forall P w -> Forall P s -> Forall (Forall P) (split_from w s).
Proof.
  revert w. induction s as [|c s IH]; intros w Hw Hs.
  - destruct w; simpl; [constructor|].
    constructor; [assumption | constructor].
  - inversion Hs; subst. simpl. destruct (is_space c).
    + destruct w; [apply IH; auto|]. constructor; auto.
    + apply IH; auto. apply Forall_app; split; auto.
Qed.

Lemma join_Forall (P : ascii -> Prop) (sep : text) (ws : list text) :
  Forall P sep -> Forall (Forall P) ws -> Forall P (join sep ws).
Proof.
  intros Hsep. induction 1 as [|w ws Hw Hws IH]; [constructor|].
  destruct ws as [|v ws]; [exact Hw|].
  change (join sep (w :: v :: ws)) with (w ++ sep ++ join sep (v :: ws)).
  repeat (apply Forall_app; split); assumption.
Qed.

Lemma join_split_from_length (w s : text) :
  List.length (join (str " ") (split_from w s))
  <= List.length w + List.length s.
Proof.
  revert w. induction s as [|c s IH]; intros w.
  - destruct w; simpl; lia.
  - simpl split_from. destruct (is_space c).
    + destruct w as [|a w].
      * specialize (IH []). simpl in *. lia.
      * specialize (IH []). simpl List.length in *.
        destruct (split_from [] s) as [|v vs] eqn:E.
        -- simpl. lia.
        -- change (join (str " ") ((a :: w) :: v :: vs))
             with ((a :: w) ++ " "%char :: join (str " ") (v :: vs)).
           simpl List.length. rewrite length_app. simpl List.length in *.
           lia.
    + specialize (IH (w ++ [c])). rewrite length_app in IH.
      simpl List.length in *. lia.
Qed.

Lemma join_split_length (s : text) :
  List.length (join (str " ") (split s)) <= List.length s.
Proof. apply (join_split_from_length [] s). Qed.

End Words.

(** ** The normalizer *)

Section Normalizer.
Import Py Resolution Steps Vocabulary Samples.

(** [normalize_name], read as the pipeline of [Steps]. *)
Lemma normalize_name_pipeline (s : text) :
  normalize_name (Some s) = pipeline s.
Proof.
  unfold normalize_name, pipeline, tidy, delete_patterns, suffix_patterns.
  cbn [fold_left]. do 2 f_equal.
  change (str "-") with ["-"%char]. change (str " ") with [" "%char].
  change (str ",") with [","%char]. change (str ".") with ["."%char].
  rewrite replace_single_map, !replace_single_delete, filter_twice.
  f_equal. apply filter_ext. intros c. unfold is_period_or_comma.
  rewrite negb_orb. reflexivity.
Qed.

Lemma suffix_patterns_not_empty : Forall (fun p => p <> []) suffix_patterns.
Proof. repeat constructor; discriminate. Qed.

Lemma delete_patterns_Forall (P : ascii -> Prop) (pats : list text) (s : text) :
  Forall (fun p => p <> []) pats -> Forall P s ->
  Forall P (delete_patterns pats s).
Proof.
  unfold delete_patterns. intros Hp. revert s.
  induction Hp as [|p pats Hne Hp IH]; intros s Hs; [exact Hs|].
  simpl. apply IH. apply replace_Forall; assumption.
Qed.

Lemma delete_patterns_absent (pats : list text) (s : text) :
  (forall p, In p pats -> contains p s = false) ->
  delete_patterns pats s = s.
Proof.
  unfold delete_patterns. induction pats as [|p pats IH]; intros H.
  - reflexivity.
  - simpl. rewrite replace_absent by (apply H; left; reflexivity).
    apply IH. intros q Hq. apply H. right. exact Hq.
Qed.

Lemma replace_delete_length (old s : text) :
  old <> [] -> List.length (replace old [] s) <= List.length s.
Proof.
  destruct old; [contradiction|]. intros _. apply replace_from_delete_length.
Qed.

Lemma delete_patterns_length (pats : list text) (s : text) :
  Forall (fun p => p <> []) pats ->
  List.length (delete_patterns pats s) <= List.length s.
Proof.
  unfold delete_patterns. intros Hp. revert s.
  induction Hp as [|p pats Hne Hp IH]; intros s; [reflexivity|].
  simpl. specialize (IH (replace p [] s)).
  pose proof (replace_delete_length s Hne). lia.
Qed.

Lemma delete_patterns_shrinks (pats : list text) (s : text) :
  Forall (fun p => p <> []) pats ->
  (exists p, In p pats /\ contains p s = true) ->
  List.length (delete_patterns pats s) < List.length s.
Proof.
  intros Hp. revert s. induction Hp as [|p pats Hne Hp IH]; intros s [q [Hq Hc]].
  - destruct Hq.
  - change (delete_patterns (p :: pats) s)
      with (delete_patterns pats (replace p [] s)).
    pose proof (delete_patterns_length (replace p [] s) Hp) as Hlen.
    destruct (contains p s) eqn:Hps.
    + assert (List.length (replace p [] s) < List.length s).
      { destruct p; [contradiction|].
        apply replace_from_delete_shrinks; [discriminate | exact Hps]. }
      lia.
    + rewrite (replace_absent p [] s Hps) in *.
      apply IH. exists q. split; [|exact Hc].
      destruct Hq as [-> | Hq]; [congruence | exact Hq].
Qed.

Lemma pipeline_clean (s : text) : Forall clean_char (pipeline s).
Proof.
  unfold pipeline, tidy. apply join_Forall.
  - repeat constructor.
  - apply split_from_Forall; [constructor|].
    apply Forall_forall. intros c Hc.
    apply in_map_iff in Hc. destruct Hc as [x [<- Hx]].
    apply filter_In in Hx. destruct Hx as [Hx Hpc].
    apply negb_true_iff in Hpc.
    assert (Hlow : lower_char x = x).
    { assert (H : Forall (fun c => lower_char c = c)
                         (delete_patterns suffix_patterns (lower s))).
      { apply delete_patterns_Forall; [apply suffix_patterns_not_empty|].
        apply Forall_forall. intros y Hy. unfold lower in Hy.
        apply in_map_iff in Hy. destruct Hy as [z [<- _]].
        apply lower_char_idem. }
      rewrite Forall_forall in H. apply H, Hx. }
    unfold hyphen_to_space. destruct (Ascii.eqb x "-"%char) eqn:Hh.
    + repeat split.
    + repeat split; assumption.
Qed.

Lemma lower_clean (s : text) : Forall clean_char s -> lower s = s.
Proof.
  unfold lower. induction 1 as [|c s [Hc _] Hs IH]; [reflexivity|].
  simpl. rewrite Hc, IH. reflexivity.
Qed.

Lemma filter_clean (s : text) :
  Forall clean_char s ->
  filter (fun c => negb (is_period_or_comma c)) s = s.
Proof.
  induction 1 as [|c s [_ [Hc _]] Hs IH]; [reflexivity|].
  simpl. rewrite Hc, IH. reflexivity.
Qed.

Lemma hyphen_clean (s : text) :
  Forall clean_char s -> map hyphen_to_space s = s.
Proof.
  induction 1 as [|c s [_ [_ Hc]] Hs IH]; [reflexivity|].
  simpl. unfold hyphen_to_space at 1. rewrite Hc, IH. reflexivity.
Qed.

(** A normalized name that holds none of the deleted patterns is a fixed
    point of the pipeline. *)
Lemma pipeline_fixed (s : text) :
  (forall p, In p suffix_patterns -> contains p (pipeline s) = false) ->
  pipeline (pipeline s) = pipeline s.
Proof.
  intros Habs. pose proof (pipeline_clean s) as Hclean.
  unfold pipeline at 1.
  rewrite (lower_clean Hclean), (delete_patterns_absent _ _ Habs).
  unfold tidy at 1.
  rewrite (filter_clean Hclean), (hyphen_clean Hclean).
  unfold pipeline, tidy. rewrite split_join by apply split_words.
  reflexivity.
Qed.

(** A normalized name that holds one of the deleted patterns gets shorter
    when it is normalized again. *)
Lemma pipeline_shrinks (n : text) :
  (exists p, In p suffix_patterns /\ contains p (lower n) = true) ->
  List.length (pipeline n) < List.length n.
Proof.
  intros H. unfold pipeline, tidy.
  pose proof (delete_patterns_shrinks (lower n) suffix_patterns_not_empty H)
    as H1.
  unfold lower in H1 at 2. rewrite length_map in H1.
  set (d := delete_patterns suffix_patterns (lower n)) in *.
  pose proof (filter_length_le (fun c => negb (is_period_or_comma c)) d) as H2.
  set (f := filter (fun c => negb (is_period_or_comma c)) d) in *.
  pose proof (join_split_length (map hyphen_to_space f)) as H3.
  rewrite length_map in H3. lia.
Qed.

End Normalizer.

(** ** A pattern at the end of the name *)

Section SuffixAtEnd.
Import Py Resolution Steps Vocabulary.

Variable sp : ascii.









End SuffixAtEnd.

Section SuffixPatterns.
Import Py Resolution Steps Vocabulary.



End SuffixPatterns.

Section NormalizerClaims.
Import Py Resolution Steps Vocabulary Samples.

Example normalize_verdenova :
  normalize_name (Some (str "VerdeNova Solutions")) = str "verdenova".
Proof. reflexivity. Qed.

Example normalize_missing : normalize_name None = str "".
Proof. reflexivity. Qed.

Example normalize_suffix_inside :
  normalize_name (Some (str "Acme Ltd Holdings")) = str "acme holdings".
Proof. reflexivity. Qed.

(** C1, as stated, fails.  The hyphen of ["a-ltd"] becomes a space only
    after the suffixes were looked for, so the first pass leaves ["a ltd"]
    and the second pass deletes [" ltd"]. *)
Lemma normalize_name_not_idempotent :
  normalize_name (Some (str "a-ltd")) = str "a ltd"
  /\ normalize_name (Some (str "a ltd")) = str "a"
  /\ normalize_name (Some (normalize_name (Some (str "a-ltd"))))
     <> normalize_name (Some (str "a-ltd")).
Proof. repeat split. vm_compute. discriminate. Qed.

(** C1, amended.  Normalizing twice is normalizing once for every input
    (the missing value included) whose normalized form holds none of the
    patterns [" ltd"], [" llc"], [" inc"], [" solutions"], [" agro"],
    [" capital"] that the normalizer deletes. *)
Theorem normalize_name_idempotent_without_patterns (name : cell) :
  (forall p, In p suffix_patterns ->
             contains p (normalize_name name) = false) ->
  normalize_name (Some (normalize_name name)) = normalize_name name.
Proof.
  destruct name as [s|]; [|reflexivity].
  rewrite !normalize_name_pipeline. apply pipeline_fixed.
Qed.

Lemma normalize_name_idempotent_witness :
  (forall p, In p suffix_patterns ->
             contains p (normalize_name (Some (str "VerdeNova Solutions, Ltd.")))
             = false)
  /\ normalize_name
       (Some (normalize_name (Some (str "VerdeNova Solutions, Ltd."))))
     = normalize_name (Some (str "VerdeNova Solutions, Ltd.")).
Proof.
  assert (H : forall p, In p suffix_patterns ->
              contains p (normalize_name
                            (Some (str "VerdeNova Solutions, Ltd."))) = false).
  { intros p Hp. simpl in Hp.
    repeat (destruct Hp as [<- | Hp]; [vm_compute; reflexivity|]).
    destruct Hp. }
  split; [exact H|].
  exact (normalize_name_idempotent_without_patterns
           (Some (str "VerdeNova Solutions, Ltd.")) H).
Defined.

(** The condition of the amended C1 is also necessary: a normalized form
    that holds one of the patterns is changed by a second pass. *)
Lemma normalize_name_changes_with_pattern (name : cell) :
  (exists p, In p suffix_patterns
             /\ contains p (normalize_name name) = true) ->
  normalize_name (Some (normalize_name name)) <> normalize_name name.
Proof.
  destruct name as [s|].
  - rewrite !normalize_name_pipeline. intros [p [Hp Hc]] Heq.
    assert (Hlt : List.length (pipeline (pipeline s))
                  < List.length (pipeline s)).
    { apply pipeline_shrinks. exists p. split; [exact Hp|].
      rewrite (lower_clean (pipeline_clean s)). exact Hc. }
    rewrite Heq in Hlt. lia.
  - intros [p [Hp Hc]]. simpl in Hp.
    repeat (destruct Hp as [<- | Hp]; [discriminate Hc|]).
    destruct Hp.
Qed.


(** The suffixes are deleted wherever they occur, not only at the end. *)
Lemma normalize_name_strips_inside :
  normalize_name (Some (str "a ltd b")) = str "a b"
  /\ SpecNormalizer.normalize (str "a ltd b") = str "a ltd b".
Proof. split; reflexivity. Qed.



End NormalizerClaims.

(** ** Dictionaries *)

Section DictFacts.
Context {K V : Type} {E : EqDec K}.
Implicit Types (k : K) (v : V) (d : Dict.t K V).

Lemma get_set_same k v d : Dict.get k (Dict.set k v d) = Some v.
Proof.
  induction d as [|[k' v'] d IH]; simpl.
  - destruct (eq_dec k k); [reflexivity | contradiction].
  - destruct (eq_dec k k') as [->|Hne]; simpl.
    + destruct (eq_dec k' k'); [reflexivity | contradiction].
    + destruct (eq_dec k k'); [contradiction | exact IH].
Qed.

Lemma get_set_other k k' v d :
  k <> k' -> Dict.get k' (Dict.set k v d) = Dict.get k' d.
Proof.
  intros Hne. induction d as [|[k0 v0] d IH]; simpl.
  - destruct (eq_dec k' k); [congruence | reflexivity].
  - destruct (eq_dec k k0) as [->|Hk]; simpl.
    + destruct (eq_dec k' k0); [congruence | reflexivity].
    + destruct (eq_dec k' k0); [reflexivity | exact IH].
Qed.

Lemma keys_set k v d :
  Dict.keys (Dict.set k v d)
  = if Dict.mem k d then Dict.keys d else Dict.keys d ++ [k].
Proof.
  unfold Dict.mem, Dict.keys.
  induction d as [|[k0 v0] d IH]; simpl; [reflexivity|].
  destruct (eq_dec k k0) as [->|Hk]; simpl; [reflexivity|].
  rewrite IH. destruct (Dict.get k d); reflexivity.
Qed.

Lemma mem_keys k d : Dict.mem k d = true <-> In k (Dict.keys d).
Proof.
  unfold Dict.mem, Dict.keys.
  induction d as [|[k0 v0] d IH]; simpl.
  - split; [discriminate | contradiction].
  - destruct (eq_dec k k0) as [->|Hk].
    + split; auto.
    + rewrite IH. split; [auto | intros [H|H]; [congruence | exact H]].
Qed.

(** Assignments keep every key once. *)
Lemma keys_set_NoDup k v d :
  NoDup (Dict.keys d) -> NoDup (Dict.keys (Dict.set k v d)).
Proof.
  intros Hd. rewrite keys_set. destruct (Dict.mem k d) eqn:Hm; [exact Hd|].
  apply NoDup_app; repeat split; try assumption.
  - repeat constructor. intros [].
  - intros x Hx [<- | []]. apply mem_keys in Hx. congruence.
Qed.

Lemma mem_set k k' v d :
  Dict.mem k' (Dict.set k v d) = true <-> k = k' \/ Dict.mem k' d = true.
Proof.
  unfold Dict.mem. destruct (eq_dec k k') as [->|Hne].
  - rewrite get_set_same. split; auto.
  - rewrite get_set_other by assumption.
    split; [auto | intros [H|H]; [contradiction | exact H]].
Qed.

(** An entry of a dictionary is what [get] finds at its key. *)
Lemma get_In k v d :
  NoDup (Dict.keys d) -> In (k, v) d -> Dict.get k d = Some v.
Proof.
  unfold Dict.keys.
  induction d as [|[k0 v0] d IH]; simpl; intros Hd Hin; [contradiction|].
  inversion Hd as [|? ? Hnotin Hd']; subst.
  destruct Hin as [Heq | Hin].
  - inversion Heq; subst. destruct (eq_dec k k); [reflexivity | contradiction].
  - destruct (eq_dec k k0) as [->|Hk]; [|auto].
    exfalso. apply Hnotin. apply in_map_iff. exists (k0, v). auto.
Qed.

Lemma In_get k v d : Dict.get k d = Some v -> In (k, v) d.
Proof.
  induction d as [|[k0 v0] d IH]; simpl; [discriminate|].
  destruct (eq_dec k k0) as [->|Hk].
  - intros H. inversion H. left. reflexivity.
  - intros H. right. auto.
Qed.

(** An entry after an assignment is the assigned one or an older one. *)
Lemma In_set k v d p :
  In p (Dict.set k v d) -> p = (k, v) \/ In p d.
Proof.
  induction d as [|[k0 v0] d IH]; simpl.
  - intros [H|[]]. left. congruence.
  - destruct (eq_dec k k0) as [->|Hk]; simpl.
    + intros [H|H]; [left; congruence | right; right; exact H].
    + intros [H|H]; [right; left; exact H|].
      destruct (IH H); [left | right; right]; assumption.
Qed.
End DictFacts.

(** ** The entity map builder *)

Section BuilderFacts.
Import Py Resolution Vocabulary Samples.

Variable list_set : list text -> list text.

Implicit Types (df : DataFrame) (row : list cell) (m : EntityMap).

Lemma row_get_has df row col :
  has_column df col = true -> row_get df row col
  = Ok (nth (match column_index col (columns df) with
             | Some i => i | None => 0 end) row None).
Proof.
  unfold has_column, row_get.
  destruct (column_index col (columns df)); [reflexivity | discriminate].
Qed.

Lemma row_get_absent df row col :
  has_column df col = false -> row_get df row col = Raise (KeyError col).
Proof.
  unfold has_column, row_get.
  destruct (column_index col (columns df)); [discriminate | reflexivity].
Qed.

(** The guard on the alternates column keeps [parse_alternates] from
    raising. *)
Lemma parse_alternates_ok df row alt_names_col :
  exists alternates, parse_alternates df row alt_names_col = Ok alternates.
Proof.
  unfold parse_alternates. destruct alt_names_col as [col|]; [|eauto].
  destruct (truthy col); simpl; [|eauto].
  destruct (has_column df col) eqn:Hc; [|eauto].
  rewrite (row_get_has df row col Hc). simpl.
  match goal with |- context [match ?c with Some _ => _ | None => _ end] =>
    destruct c end; eauto.
Qed.

(** The alternates are the non-empty trimmed pieces of the field. *)
Lemma parse_alternates_pieces df row col s :
  truthy col = true -> has_column df col = true ->
  row_get df row col = Ok (Some s) ->
  forall alternates, parse_alternates df row (Some col) = Ok alternates ->
  forall a, In a alternates <->
            a <> [] /\ exists piece, In piece (split_on ";"%char s)
                                     /\ a = strip piece.
Proof.
  intros Ht Hc Hg alternates. unfold parse_alternates.
  rewrite Ht, Hc, Hg. simpl. intros H. inversion H; subst; clear H.
  intros a. rewrite in_map_iff. split.
  - intros [piece [<- Hp]]. apply filter_In in Hp. destruct Hp as [Hp Hne].
    split; [|eauto]. destruct (strip piece); [discriminate | discriminate].
  - intros [Hne [piece [Hp ->]]]. exists piece. split; [reflexivity|].
    apply filter_In. split; [exact Hp|].
    destruct (strip piece); [contradiction | reflexivity].
Qed.

Lemma build_entity_inv df id_col name_col alt_names_col row m m' :
  build_entity list_set df id_col name_col alt_names_col row m = Ok m' ->
  exists i canonical alternates,
    row_get df row id_col = Ok i
    /\ row_get df row name_col = Ok canonical
    /\ parse_alternates df row alt_names_col = Ok alternates
    /\ m' = Dict.set i
              {| canonical_name := canonical;
                 alternate_names := alternates;
                 normalized_variants :=
                   list_set (map normalize_name
                                 (canonical :: map Some alternates)) |} m.
Proof.
  unfold build_entity.
  destruct (row_get df row id_col) as [i|]; [|discriminate].
  destruct (row_get df row name_col) as [c|]; [|discriminate].
  destruct (parse_alternates df row alt_names_col) as [alts|]; [|discriminate].
  simpl. intros H. inversion H. eauto 10.
Qed.

Lemma build_loop_built_from df id_col name_col alt_names_col todo :
  forall m m',
    build_loop list_set df id_col name_col alt_names_col todo m = Ok m' ->
    forall i e, In (i, e) m' ->
      In (i, e) m
      \/ exists row, In row todo
                     /\ built_from list_set df id_col name_col alt_names_col row i e.
Proof.
  induction todo as [|row todo IH]; simpl; intros m m' H i e Hin.
  - inversion H; subst. left. exact Hin.
  - destruct (build_entity list_set df id_col name_col alt_names_col row m)
      as [m1|] eqn:Hb; [|discriminate]. simpl in H.
    destruct (IH _ _ H _ _ Hin) as [Hm1 | [r [Hr Hbf]]].
    + apply build_entity_inv in Hb.
      destruct Hb as [i0 [c [alts [Hi [Hc [Ha ->]]]]]].
      apply In_set in Hm1. destruct Hm1 as [Heq | Hm]; [|left; exact Hm].
      right. exists row. split; [left; reflexivity|].
      inversion Heq; subst. repeat split; assumption.
    + right. exists r. split; [right; exact Hr | exact Hbf].
Qed.

Lemma build_loop_keys_NoDup df id_col name_col alt_names_col todo :
  forall m m',
    build_loop list_set df id_col name_col alt_names_col todo m = Ok m' ->
    NoDup (Dict.keys m) -> NoDup (Dict.keys m').
Proof.
  induction todo as [|row todo IH]; simpl; intros m m' H Hm.
  - inversion H; subst. exact Hm.
  - destruct (build_entity list_set df id_col name_col alt_names_col row m)
      as [m1|] eqn:Hb; [|discriminate]. simpl in H.
    apply (IH _ _ H). apply build_entity_inv in Hb.
    destruct Hb as [i0 [c [alts [_ [_ [_ ->]]]]]].
    apply keys_set_NoDup, Hm.
Qed.

(** With both columns present the loop runs to its end, and every record
    it went through has its identifier among the keys. *)
Lemma build_loop_total df id_col name_col alt_names_col todo :
  has_column df id_col = true -> has_column df name_col = true ->
  forall m, exists m',
    build_loop list_set df id_col name_col alt_names_col todo m = Ok m'
    /\ (forall k, Dict.mem k m = true -> Dict.mem k m' = true)
    /\ (forall row, In row todo ->
          exists i, row_get df row id_col = Ok i /\ Dict.mem i m' = true).
Proof.
  intros Hid Hname. induction todo as [|row todo IH]; intros m; simpl.
  - exists m. repeat split; [auto | contradiction].
  - unfold build_entity at 1.
    rewrite (row_get_has df row id_col Hid),
            (row_get_has df row name_col Hname).
    destruct (parse_alternates_ok df row alt_names_col) as [alts ->]. simpl.
    match goal with |- context [build_loop _ _ _ _ _ _ ?m1] =>
      destruct (IH m1) as [m' [Hok [Hmono Hrows]]] end.
    exists m'. split; [exact Hok|]. split.
    + intros k Hk. apply Hmono. apply mem_set. right. exact Hk.
    + intros r [<- | Hr]; [|apply Hrows, Hr].
      eexists. split; [apply row_get_has, Hid|].
      apply Hmono, mem_set. left. reflexivity.
Qed.

End BuilderFacts.

Lemma dedup_In (xs : list Py.text) (v : Py.text) :
  In v (Resolution.dedup xs) <-> In v xs.
Proof.
  induction xs as [|x xs IH]; simpl; [tauto|].
  rewrite filter_In, IH. unfold eqb_of.
  destruct (eq_dec x v) as [->|Hne]; simpl.
  - tauto.
  - split; [tauto|]. intros [H|H]; [contradiction | auto].
Qed.

Section BuilderClaims.
Import Py Resolution Vocabulary Samples.

(** C3, as stated, fails.  Empty strings are not excluded: the alternate
    name ["-"] of the record below is normalized to the empty string, which
    is one of the entity's normalized variants. *)
Lemma normalized_variants_keep_empty :
  build_entity_mapping dedup developers_sample (str "DeveloperID")
    (str "DeveloperName") (Some (str "AlternateNames"))
  = Ok [(Some (str "D1"), acme_entity)]
  /\ In (str "") (normalized_variants acme_entity).
Proof. split; [reflexivity | right; left; reflexivity]. Qed.

(** C3, amended.  Every entity of the map that the builder returns comes
    from a record of the table: its canonical name is the record's name, its
    alternate names are the non-empty trimmed pieces of the alternate-names
    field (none when the field is absent or missing), and its normalized
    variants are, as a set, the normalized forms of the canonical name and of
    all alternate names, the empty string included when a name normalizes to
    it.  In particular the variants hold the normalized canonical name and
    the normalized form of every alternate name, and are never empty. *)
Theorem normalized_variants_of_record
        (list_set : list text -> list text)
        (list_set_spec : forall xs v, In v (list_set xs) <-> In v xs)
        (df : DataFrame) (id_col name_col : text)
        (alt_names_col : option text) (m : EntityMap)
        (i : entity_id) (e : Entity) :
  build_entity_mapping list_set df id_col name_col alt_names_col = Ok m ->
  In (i, e) m ->
  (exists row, In row (rows df)
               /\ row_get df row id_col = Ok i
               /\ row_get df row name_col = Ok (canonical_name e)
               /\ parse_alternates df row alt_names_col
                  = Ok (alternate_names e))
  /\ (forall v, In v (normalized_variants e) <->
                exists n, In n (canonical_name e
                                :: map Some (alternate_names e))
                          /\ v = normalize_name n)
  /\ In (normalize_name (canonical_name e)) (normalized_variants e)
  /\ (forall a, In a (alternate_names e) ->
                In (normalize_name (Some a)) (normalized_variants e))
  /\ normalized_variants e <> [].
Proof.
  intros Hb Hin.
  destruct (@build_loop_built_from list_set df id_col name_col alt_names_col
              (rows df) Dict.empty m Hb i e Hin)
    as [[] | [row [Hrow [Hi [Hc [Ha Hv]]]]]].
  assert (Hset : forall v, In v (normalized_variants e) <->
            exists n, In n (canonical_name e :: map Some (alternate_names e))
                      /\ v = normalize_name n).
  { intros v. rewrite Hv, list_set_spec, in_map_iff.
    split; intros [n [H1 H2]]; exists n; auto. }
  assert (Hcan : In (normalize_name (canonical_name e))
                    (normalized_variants e)).
  { apply Hset. eexists. split; [left; reflexivity | reflexivity]. }
  split; [eauto 10|]. split; [exact Hset|]. split; [exact Hcan|]. split.
  - intros a Ha'. apply Hset. exists (Some a). split; [|reflexivity].
    right. apply in_map, Ha'.
  - intros Hnil. rewrite Hnil in Hcan. destruct Hcan.
Qed.

Lemma normalized_variants_of_record_witness :
  (forall xs v, In v (dedup xs) <-> In v xs)
  /\ build_entity_mapping dedup developers_sample (str "DeveloperID")
       (str "DeveloperName") (Some (str "AlternateNames"))
     = Ok [(Some (str "D1"), acme_entity)]
  /\ In (Some (str "D1"), acme_entity) [(Some (str "D1"), acme_entity)]
  /\ In (normalize_name (canonical_name acme_entity))
        (normalized_variants acme_entity)
  /\ normalized_variants acme_entity <> [].
Proof.
  split; [exact dedup_In|]. split; [reflexivity|].
  split; [left; reflexivity|].
  pose proof (@normalized_variants_of_record dedup dedup_In
                developers_sample (str "DeveloperID") (str "DeveloperName")
                (Some (str "AlternateNames"))
                [(Some (str "D1"), acme_entity)]
                (Some (str "D1")) acme_entity eq_refl
                (or_introl eq_refl)) as H.
  destruct H as [_ [_ [Hcan [_ Hne]]]]. split; [exact Hcan | exact Hne].
Defined.

(** C8, as stated, fails.  The only record of the table below has no
    identifier; it is neither dropped nor the cause of a failure: the builder
    returns a map that files the record under the missing identifier. *)
Lemma missing_identifier_is_kept :
  build_entity_mapping dedup unidentified_sample (str "DeveloperID")
    (str "DeveloperName") None
  = Ok [(None,
         {| canonical_name := Some (str "Acme");
            alternate_names := [];
            normalized_variants := [str "acme"] |})]
  /\ build_entity_mapping dedup
       {| columns := [str "DeveloperID"; str "DeveloperName"]; rows := [] |}
       (str "DeveloperID") (str "DeveloperName") None
     = Ok [].
Proof. split; reflexivity. Qed.

(** C8, amended.  The entity map builder fails, with a key error that names
    the column, exactly when the table has at least one record and lacks the
    id column or the name column (the id column is looked up first).  With
    both columns present it returns a map in which every record's identifier
    is a key: a record with a missing identifier is not dropped, it is filed
    under the missing value.  A table with no record yields the empty map
    without failure. *)
Theorem build_entity_mapping_failures
        (list_set : list text -> list text) (df : DataFrame)
        (id_col name_col : text) (alt_names_col : option text) :
  (rows df = [] ->
   build_entity_mapping list_set df id_col name_col alt_names_col
   = Ok Dict.empty)
  /\ (rows df <> [] -> has_column df id_col = false ->
      build_entity_mapping list_set df id_col name_col alt_names_col
      = Raise (KeyError id_col))
  /\ (rows df <> [] -> has_column df id_col = true ->
      has_column df name_col = false ->
      build_entity_mapping list_set df id_col name_col alt_names_col
      = Raise (KeyError name_col))
  /\ (has_column df id_col = true -> has_column df name_col = true ->
      exists m,
        build_entity_mapping list_set df id_col name_col alt_names_col = Ok m
        /\ forall row, In row (rows df) ->
             exists i, row_get df row id_col = Ok i /\ Dict.mem i m = true).
Proof.
  unfold build_entity_mapping. repeat split.
  - intros ->. reflexivity.
  - intros Hne Hid. destruct (rows df) as [|row todo]; [contradiction|].
    simpl. unfold build_entity. rewrite (row_get_absent df row id_col Hid).
    reflexivity.
  - intros Hne Hid Hname. destruct (rows df) as [|row todo]; [contradiction|].
    simpl. unfold build_entity.
    rewrite (row_get_has df row id_col Hid),
            (row_get_absent df row name_col Hname).
    reflexivity.
  - intros Hid Hname.
    destruct (@build_loop_total list_set df id_col name_col alt_names_col
                (rows df) Hid Hname Dict.empty) as [m [Hok [_ Hrows]]].
    exists m. split; assumption.
Qed.

Lemma build_entity_mapping_failures_witness :
  rows unidentified_sample <> []
  /\ has_column unidentified_sample (str "InvestorID") = false
  /\ build_entity_mapping dedup unidentified_sample (str "InvestorID")
       (str "DeveloperName") None
     = Raise (KeyError (str "InvestorID")).
Proof.
  assert (Hrows : rows unidentified_sample <> []) by discriminate.
  assert (Hid : has_column unidentified_sample (str "InvestorID") = false)
    by reflexivity.
  split; [exact Hrows|]. split; [exact Hid|].
  exact (proj1 (proj2 (build_entity_mapping_failures dedup
                         unidentified_sample (str "InvestorID")
                         (str "DeveloperName") None))
               Hrows Hid).
Defined.

End BuilderClaims.

(** ** The reverse lookup *)

Section ReverseLookupFacts.
Import Py Resolution Vocabulary Samples.

Implicit Types (v : text) (e : Entity) (id : entity_id) (rm : ReverseMap).

Lemma writes_dec e v : {writes e v} + {~ writes e v}.
Proof.
  unfold writes.
  destruct (eq_dec (normalize_name (canonical_name e)) v) as [H|H];
    [left; left; exact H|].
  destruct (in_dec eq_dec v (normalized_variants e)) as [Hin|Hin].
  - destruct v as [|c v].
    + right. intros [H1 | [_ H2]]; [contradiction | apply H2; reflexivity].
    + left. right. split; [exact Hin | discriminate].
  - right. intros [H1 | [H2 _]]; contradiction.
Qed.

Lemma add_variants_snoc id (vs : list text) (x : text) rm :
  add_variants id (vs ++ [x]) rm
  = let rm' := add_variants id vs rm in
    if truthy x then Dict.set x id rm' else rm'.
Proof. unfold add_variants. rewrite fold_left_app. reflexivity. Qed.

Lemma add_variants_written id (vs : list text) v rm :
  In v vs -> v <> [] -> Dict.get v (add_variants id vs rm) = Some id.
Proof.
  intros Hin Hne. induction vs as [|x vs IH] using rev_ind; [destruct Hin|].
  rewrite add_variants_snoc. cbv zeta.
  destruct (eq_dec x v) as [->|Hx].
  - destruct v; [contradiction|]. simpl truthy. apply get_set_same.
  - apply in_app_or in Hin. destruct Hin as [Hin | [Heq | []]]; [|contradiction].
    destruct (truthy x); [rewrite get_set_other by exact Hx|]; apply IH, Hin.
Qed.

Lemma add_variants_skipped id (vs : list text) v rm :
  ~ (In v vs /\ v <> []) ->
  Dict.get v (add_variants id vs rm) = Dict.get v rm.
Proof.
  intros Hno. induction vs as [|x vs IH] using rev_ind; [reflexivity|].
  rewrite add_variants_snoc. cbv zeta.
  assert (IH' : Dict.get v (add_variants id vs rm) = Dict.get v rm).
  { apply IH. intros [H1 H2]. apply Hno. split; [|exact H2].
    apply in_or_app. left. exact H1. }
  destruct (truthy x) eqn:Hx; [|exact IH'].
  rewrite get_set_other; [exact IH'|].
  intros ->. apply Hno. split.
  - apply in_or_app. right. left. reflexivity.
  - destruct v; [discriminate Hx | discriminate].
Qed.

Lemma add_entity_written rm id e v :
  writes e v -> Dict.get v (add_entity rm (id, e)) = Some id.
Proof.
  intros Hw. unfold add_entity.
  destruct (in_dec eq_dec v (normalized_variants e)) as [Hin|Hin].
  - destruct v as [|c v].
    + rewrite add_variants_skipped by (intros [_ H]; apply H; reflexivity).
      destruct Hw as [<- | [_ H]]; [apply get_set_same | contradiction H].
      reflexivity.
    + apply add_variants_written; [exact Hin | discriminate].
  - rewrite add_variants_skipped by (intros [H _]; contradiction).
    destruct Hw as [<- | [H _]]; [apply get_set_same | contradiction].
Qed.

Lemma add_entity_skipped rm id e v :
  ~ writes e v -> Dict.get v (add_entity rm (id, e)) = Dict.get v rm.
Proof.
  intros Hw. unfold add_entity.
  rewrite add_variants_skipped by (intros H; apply Hw; right; exact H).
  apply get_set_other. intros H. apply Hw. left. exact H.
Qed.

Lemma fold_add_entity_skipped v (m : EntityMap) :
  forall rm,
    (forall id e, In (id, e) m -> ~ writes e v) ->
    Dict.get v (fold_left add_entity m rm) = Dict.get v rm.
Proof.
  induction m as [|[id e] m IH]; intros rm H; [reflexivity|].
  simpl fold_left. rewrite IH by (intros; apply (H id0); right; assumption).
  apply add_entity_skipped. apply (H id). left. reflexivity.
Qed.

(** The last entity that writes a key owns it. *)
Lemma reverse_lookup_last_writer (pre post : EntityMap) id e v :
  writes e v ->
  (forall id' e', In (id', e') post -> ~ writes e' v) ->
  Dict.get v (create_reverse_lookup (pre ++ (id, e) :: post)) = Some id.
Proof.
  intros Hw Hpost. unfold create_reverse_lookup.
  rewrite fold_left_app. simpl fold_left.
  rewrite fold_add_entity_skipped by exact Hpost.
  apply add_entity_written, Hw.
Qed.

(** Either no entity writes the key, or some entity is the last to. *)
Lemma last_writer (m : EntityMap) v :
  (forall id e, In (id, e) m -> ~ writes e v)
  \/ exists pre id e post,
       m = pre ++ (id, e) :: post /\ writes e v
       /\ forall id' e', In (id', e') post -> ~ writes e' v.
Proof.
  induction m as [|[id e] m IH].
  - left. intros ? ? [].
  - destruct IH as [Hnone | [pre [id' [e' [post [-> [Hw Hpost]]]]]]].
    + destruct (writes_dec e v) as [Hw | Hw].
      * right. exists [], id, e, m. auto.
      * left. intros i x [Heq | Hin]; [inversion Heq; subst; exact Hw|].
        apply (Hnone i), Hin.
    + right. exists ((id, e) :: pre), id', e', post. auto.
Qed.

Lemma reverse_lookup_unwritten (m : EntityMap) v :
  (forall id e, In (id, e) m -> ~ writes e v) ->
  Dict.get v (create_reverse_lookup m) = None.
Proof.
  intros H. unfold create_reverse_lookup.
  rewrite fold_add_entity_skipped by exact H. reflexivity.
Qed.

End ReverseLookupFacts.

Section ReverseLookupClaims.
Import Py Resolution Vocabulary Samples.

Example reverse_lookup_sample :
  create_reverse_lookup
    [(Some (str "D1"), acme_entity); (Some (str "D2"), acme_capital_entity)]
  = [(str "acme", Some (str "D2"))].
Proof. reflexivity. Qed.

(** C4, as stated, fails.  The empty string is a normalized variant of the
    entity below, as built from a record whose alternate name is a hyphen,
    and the reverse lookup built from its map has no such key: empty
    variants are skipped. *)
Lemma reverse_lookup_skips_empty_variant :
  In (str "") (normalized_variants acme_entity)
  /\ create_reverse_lookup [(Some (str "D1"), acme_entity)]
     = [(str "acme", Some (str "D1"))]
  /\ Dict.get (str "")
       (create_reverse_lookup [(Some (str "D1"), acme_entity)]) = None.
Proof. split; [right; left; reflexivity | split; reflexivity]. Qed.

(** C4, amended.  For every entity [e] of the entity map and every
    non-empty variant [v] of [e], the reverse lookup holds the key [v].  It
    maps [v] to the identifier of [e] when no entity processed after [e] has
    [v] as a variant or as its normalized canonical name; otherwise to the
    identifier of the last entity that has (last write wins). *)
Theorem reverse_lookup_complete
        (pre post : EntityMap) (id : entity_id) (e : Entity) (v : text) :
  In v (normalized_variants e) -> v <> [] ->
  ((forall id' e', In (id', e') post -> ~ has_name e' v) ->
   Dict.get v (create_reverse_lookup (pre ++ (id, e) :: post)) = Some id)
  /\ (forall post1 id' e' post2,
        post = post1 ++ (id', e') :: post2 ->
        has_name e' v ->
        (forall id'' e'', In (id'', e'') post2 -> ~ has_name e'' v) ->
        Dict.get v (create_reverse_lookup (pre ++ (id, e) :: post))
        = Some id').
Proof.
  intros Hin Hne.
  assert (Hiff : forall x, writes x v -> has_name x v).
  { intros x [H | [H _]]; [right | left]; exact H. }
  assert (Hiff' : forall x, has_name x v -> writes x v).
  { intros x [H | H]; [right; split; assumption | left; exact H]. }
  split.
  - intros Hpost. apply reverse_lookup_last_writer.
    + right. split; assumption.
    + intros id' e' Hp Hw. apply (Hpost id' e' Hp), Hiff, Hw.
  - intros post1 id' e' post2 -> Hhas Hpost2.
    replace (pre ++ (id, e) :: post1 ++ (id', e') :: post2)
      with ((pre ++ (id, e) :: post1) ++ (id', e') :: post2)
      by (rewrite <- app_assoc; reflexivity).
    apply reverse_lookup_last_writer.
    + apply Hiff', Hhas.
    + intros i x Hp Hw. apply (Hpost2 i x Hp), Hiff, Hw.
Qed.

Lemma reverse_lookup_complete_witness :
  In (str "acme") (normalized_variants acme_entity)
  /\ str "acme" <> []
  /\ Dict.get (str "acme")
       (create_reverse_lookup
          ([] ++ (Some (str "D1"), acme_entity)
              :: [(Some (str "D2"), acme_capital_entity)]))
     = Some (Some (str "D2"))
  /\ Dict.get (str "acme")
       (create_reverse_lookup ([] ++ (Some (str "D1"), acme_entity) :: []))
     = Some (Some (str "D1")).
Proof.
  assert (Hin : In (str "acme") (normalized_variants acme_entity))
    by (left; reflexivity).
  assert (Hne : str "acme" <> []) by discriminate.
  split; [exact Hin|]. split; [exact Hne|]. split.
  - apply (proj2 (@reverse_lookup_complete []
                    [(Some (str "D2"), acme_capital_entity)]
                    (Some (str "D1")) acme_entity (str "acme") Hin Hne)
                 [] (Some (str "D2")) acme_capital_entity []).
    + reflexivity.
    + left. left. reflexivity.
    + intros ? ? [].
  - apply (proj1 (@reverse_lookup_complete [] []
                    (Some (str "D1")) acme_entity (str "acme") Hin Hne)).
    intros ? ? [].
Defined.

Example reverse_lookup_nameless :
  create_reverse_lookup
    [(Some (str "D1"), nameless_entity); (Some (str "D2"), acme_entity);
     (Some (str "D3"), nameless_entity)]
  = [(str "", Some (str "D3")); (str "acme", Some (str "D2"))].
Proof. reflexivity. Qed.

(** C10.  The normalized canonical name of every entity is a key of the
    reverse lookup, whatever it is.  When it is the empty string, the empty
    string is a key and maps to the identifier of the last entity whose
    canonical name normalizes to the empty string.  Empty strings among the
    normalized variants are skipped: when no canonical name normalizes to
    the empty string, the empty string is not a key, whatever the variants
    hold. *)
Theorem reverse_lookup_empty_key :
  (forall (m : EntityMap) id e,
      In (id, e) m ->
      Dict.mem (normalize_name (canonical_name e)) (create_reverse_lookup m)
      = true)
  /\ (forall (pre post : EntityMap) id e,
        normalize_name (canonical_name e) = [] ->
        (forall id' e', In (id', e') post ->
                        normalize_name (canonical_name e') <> []) ->
        Dict.get [] (create_reverse_lookup (pre ++ (id, e) :: post))
        = Some id)
  /\ (forall (m : EntityMap),
        (forall id e, In (id, e) m ->
                      normalize_name (canonical_name e) <> []) ->
        Dict.get [] (create_reverse_lookup m) = None).
Proof.
  assert (Hempty : forall x, writes x [] ->
                             normalize_name (canonical_name x) = []).
  { intros x [H | [_ H]]; [exact H | contradiction H; reflexivity]. }
  split; [|split].
  - intros m id e Hin. unfold Dict.mem.
    destruct (last_writer m (normalize_name (canonical_name e)))
      as [Hnone | [pre [id' [e' [post [-> [Hw Hpost]]]]]]].
    + exfalso. apply (Hnone id e Hin). left. reflexivity.
    + rewrite (reverse_lookup_last_writer pre post id' Hw Hpost). reflexivity.
  - intros pre post id e He Hpost. apply reverse_lookup_last_writer.
    + left. exact He.
    + intros id' e' Hp Hw. apply (Hpost id' e' Hp), Hempty, Hw.
  - intros m H. apply reverse_lookup_unwritten.
    intros id e Hin Hw. apply (H id e Hin), Hempty, Hw.
Qed.

Lemma reverse_lookup_empty_key_witness :
  normalize_name (canonical_name nameless_entity) = []
  /\ Dict.get []
       (create_reverse_lookup
          ([(Some (str "D1"), nameless_entity)]
           ++ (Some (str "D3"), nameless_entity)
              :: [(Some (str "D2"), acme_entity)]))
     = Some (Some (str "D3")).
Proof.
  assert (He : normalize_name (canonical_name nameless_entity) = [])
    by reflexivity.
  split; [exact He|].
  apply (proj1 (proj2 reverse_lookup_empty_key)
               [(Some (str "D1"), nameless_entity)]
               [(Some (str "D2"), acme_entity)]
               (Some (str "D3")) nameless_entity He).
  intros id' e' [H | []]. inversion H; subst. vm_compute. discriminate.
Defined.

End ReverseLookupClaims.

(** ** The mention extractor *)

Lemma filter_none {A : Type} (f : A -> bool) (l : list A) :
  (forall x, In x l -> f x = false) -> filter f l = [].
Proof.
  induction l as [|x l IH]; intros H; [reflexivity|].
  simpl. rewrite (H x) by (left; reflexivity).
  apply IH. intros y Hy. apply H. right. exact Hy.
Qed.

Section MentionFacts.
Import Py Resolution Vocabulary Samples.

Lemma check_alternates_find text_lower id canonical alternates found :
  check_alternates text_lower id canonical alternates found
  = found
    ++ match find (fun alt => occurs_in alt text_lower) alternates with
       | Some alt => [ {| mention_id := id; entity_name := Some canonical;
                          matched_text := alt |} ]
       | None => []
       end.
Proof.
  induction alternates as [|a alternates IH]; simpl.
  - rewrite app_nil_r. reflexivity.
  - unfold occurs_in at 1. destruct (contains (lower a) text_lower);
      [reflexivity | exact IH].
Qed.

Lemma find_loop_expected text_lower (items : EntityMap) :
  named items ->
  forall found,
    find_loop text_lower items found
    = Ok (found ++ flat_map (expected_mentions text_lower) items).
Proof.
  induction 1 as [|[id e] items Hc Hitems IH]; intros found; simpl.
  - rewrite app_nil_r. reflexivity.
  - unfold expected_mentions at 1. simpl in *.
    destruct (canonical_name e) as [c|]; [|contradiction Hc; reflexivity].
    unfold occurs_in at 1. destruct (contains (lower c) text_lower).
    + rewrite IH, <- app_assoc. reflexivity.
    + rewrite IH, check_alternates_find, <- app_assoc. reflexivity.
Qed.




(** One entity without canonical name makes the loop raise, wherever it
    stands: the entities before it are visited without failure, and what
    they added to the list is lost. *)
Lemma find_loop_missing_name text_lower (items : EntityMap) :
  (exists id e, In (id, e) items /\ canonical_name e = None) ->
  forall found, find_loop text_lower items found = Raise AttributeError.
Proof.
  induction items as [|[id e] items IH]; intros [i [x [Hin Hx]]] found.
  - destruct Hin.
  - simpl. destruct (canonical_name e) as [c|] eqn:Hc; [|reflexivity].
    assert (Hrest : exists id e, In (id, e) items /\ canonical_name e = None).
    { destruct Hin as [Heq | Hin]; [|eauto].
      inversion Heq; subst. congruence. }
    destruct (contains (lower c) text_lower); apply IH, Hrest.
Qed.

End MentionFacts.

Section MentionClaims.
Import Py Resolution Vocabulary Samples.


Lemma find_nothing {A : Type} (f : A -> bool) (l : list A) :
  (forall a, In a l -> f a = false) -> find f l = None.
Proof.
  induction l as [|b l IH]; intros Hb; simpl; [reflexivity|].
  rewrite (Hb b) by (left; reflexivity).
  apply IH. intros a Ha. apply Hb. right. exact Ha.
Qed.

(** The scenario of the specification: one entity, named in the text. *)
Example find_verdenova :
  find_entity_in_text (Some (str "Contact VerdeNova Solutions about ARR"))
                      [(Some (str "D1"), verdenova_entity)]
  = Ok [ {| mention_id := Some (str "D1");
            entity_name := Some (str "VerdeNova Solutions");
            matched_text := str "VerdeNova Solutions" |} ].
Proof. reflexivity. Qed.

Example find_verde_nova_alternate :
  find_entity_in_text (Some (str "call with VERDE NOVA on Monday"))
                      [(Some (str "D1"), verdenova_entity)]
  = Ok [ {| mention_id := Some (str "D1");
            entity_name := Some (str "VerdeNova Solutions");
            matched_text := str "Verde Nova" |} ].
Proof. reflexivity. Qed.




End MentionClaims.

(** ** The duplicate detector *)

Section DetectorFacts.
Import Py Resolution Vocabulary Samples.

Variable ratio : text -> text -> Q.

Lemma fold_left_append {A B : Type} (f : A -> list B) (l : list A) :
  forall acc, fold_left (fun acc x => acc ++ f x) l acc = acc ++ flat_map f l.
Proof.
  induction l as [|x l IH]; intros acc; simpl.
  - rewrite app_nil_r. reflexivity.
  - rewrite IH, <- app_assoc. reflexivity.
Qed.

Lemma similar_loop_candidates threshold items :
  forall acc,
    similar_loop ratio threshold items acc = acc ++ candidates ratio threshold items.
Proof.
  induction items as [|e1 later IH]; intros acc; simpl.
  - rewrite app_nil_r. reflexivity.
  - rewrite IH, fold_left_append, <- app_assoc. reflexivity.
Qed.

Lemma find_similar_entities_candidates (m : EntityMap) threshold :
  find_similar_entities ratio m threshold = candidates ratio threshold m.
Proof. apply (similar_loop_candidates threshold m []). Qed.

(** The score kept by the inner loops never decreases, and bounds every
    ratio seen. *)
Lemma compare_variant_grows name1 name2 (b : best) :
  (fst b <= fst (compare_variant ratio name1 name2 b))%Q
  /\ (ratio name1 name2 <= fst (compare_variant ratio name1 name2 b))%Q.
Proof.
  unfold compare_variant.
  destruct (Qlt_le_dec (fst b) (ratio name1 name2)) as [Hlt | Hle]; simpl.
  - split; [apply Qlt_le_weak, Hlt | apply Qle_refl].
  - split; [apply Qle_refl | exact Hle].
Qed.

Lemma inner_loop_grows name1 (variants2 : list text) :
  forall b : best,
    (fst b <= fst (fold_left (fun b name2 => compare_variant ratio name1 name2 b)
                             variants2 b))%Q.
Proof.
  induction variants2 as [|n2 vs IH]; intros b; simpl; [apply Qle_refl|].
  eapply Qle_trans; [|apply IH]. apply compare_variant_grows.
Qed.

Lemma inner_loop_bounds name1 (variants2 : list text) name2 :
  In name2 variants2 ->
  forall b : best,
    (ratio name1 name2
     <= fst (fold_left (fun b name2 => compare_variant ratio name1 name2 b)
                       variants2 b))%Q.
Proof.
  induction variants2 as [|n2 vs IH]; intros Hin b; [destruct Hin|].
  simpl. destruct Hin as [-> | Hin]; [|apply IH, Hin].
  eapply Qle_trans; [|apply inner_loop_grows]. apply compare_variant_grows.
Qed.

Lemma outer_loop_grows (variants1 variants2 : list text) :
  forall b : best,
    (fst b
     <= fst (fold_left
               (fun b name1 =>
                  fold_left (fun b name2 => compare_variant ratio name1 name2 b)
                            variants2 b)
               variants1 b))%Q.
Proof.
  induction variants1 as [|n1 vs IH]; intros b; simpl; [apply Qle_refl|].
  eapply Qle_trans; [|apply IH]. apply inner_loop_grows.
Qed.

Lemma outer_loop_bounds (variants1 variants2 : list text) name1 name2 :
  In name1 variants1 -> In name2 variants2 ->
  forall b : best,
    (ratio name1 name2
     <= fst (fold_left
               (fun b name1 =>
                  fold_left (fun b name2 => compare_variant ratio name1 name2 b)
                            variants2 b)
               variants1 b))%Q.
Proof.
  induction variants1 as [|n1 vs IH]; intros H1 H2 b; [destruct H1|].
  simpl. destruct H1 as [-> | H1]; [|apply IH; assumption].
  eapply Qle_trans; [|apply outer_loop_grows]. apply inner_loop_bounds, H2.
Qed.

(** [max_similarity] is an upper bound of the ratios of all variant
    pairs. *)
Lemma compare_variants_bounds (variants1 variants2 : list text) name1 name2 :
  In name1 variants1 -> In name2 variants2 ->
  (ratio name1 name2 <= fst (compare_variants ratio variants1 variants2))%Q.
Proof. intros H1 H2. apply outer_loop_bounds; assumption. Qed.

Lemma compare_variants_attained (variants1 variants2 : list text) :
  attained ratio variants1 variants2 (compare_variants ratio variants1 variants2).
Proof.
  unfold compare_variants.
  assert (Hinner : forall n1 vs2 b,
             In n1 variants1 -> incl vs2 variants2 ->
             attained ratio variants1 variants2 b ->
             attained ratio variants1 variants2
               (fold_left (fun b n2 => compare_variant ratio n1 n2 b) vs2 b)).
  { intros n1 vs2. induction vs2 as [|n2 vs2 IH]; intros b H1 Hincl Hb;
      [exact Hb|].
    simpl. apply IH; [exact H1 | intros x Hx; apply Hincl; right; exact Hx |].
    unfold compare_variant. destruct (Qlt_le_dec _ _); [|exact Hb].
    repeat split; [exact H1 | apply Hincl; left; reflexivity]. }
  assert (Houter : forall vs1 b,
             incl vs1 variants1 -> attained ratio variants1 variants2 b ->
             attained ratio variants1 variants2
               (fold_left
                  (fun b n1 =>
                     fold_left (fun b n2 => compare_variant ratio n1 n2 b)
                               variants2 b) vs1 b)).
  { induction vs1 as [|n1 vs1 IH]; intros b Hincl Hb; [exact Hb|].
    simpl. apply IH; [intros x Hx; apply Hincl; right; exact Hx|].
    apply Hinner; [apply Hincl; left; reflexivity | apply incl_refl | exact Hb]. }
  apply Houter; [apply incl_refl | reflexivity].
Qed.

(** A pair is reported exactly when its score reaches the threshold. *)
Lemma compare_entities_kept threshold (e1 e2 : entity_id * Entity) :
  compare_entities ratio threshold e1 e2
  = let b := compare_variants ratio (normalized_variants (snd e1))
                              (normalized_variants (snd e2)) in
    if Qle_bool threshold (fst b)
    then [ {| id1 := fst e1; entity1 := canonical_name (snd e1);
              id2 := fst e2; entity2 := canonical_name (snd e2);
              similarity := fst b; matched_variants := snd b |} ]
    else [].
Proof.
  unfold compare_entities.
  destruct (compare_variants ratio _ _) as [mx bm]. reflexivity.
Qed.

Lemma compare_entities_filter t1 t2 (e1 e2 : entity_id * Entity) :
  (t1 <= t2)%Q ->
  compare_entities ratio t2 e1 e2
  = filter (fun c => Qle_bool t2 (similarity c))
           (compare_entities ratio t1 e1 e2).
Proof.
  intros Hle. rewrite !compare_entities_kept. cbv zeta.
  set (b := compare_variants ratio _ _).
  destruct (Qle_bool t2 (fst b)) eqn:H2.
  - assert (H1 : Qle_bool t1 (fst b) = true).
    { apply Qle_bool_iff. apply Qle_bool_iff in H2.
      eapply Qle_trans; eassumption. }
    rewrite H1. simpl. rewrite H2. reflexivity.
  - destruct (Qle_bool t1 (fst b)); [|reflexivity].
    simpl. rewrite H2. reflexivity.
Qed.

Lemma filter_flat_map {A B : Type} (p : B -> bool) (f : A -> list B)
      (l : list A) :
  filter p (flat_map f l) = flat_map (fun x => filter p (f x)) l.
Proof.
  induction l as [|x l IH]; [reflexivity|].
  simpl. rewrite filter_app, IH. reflexivity.
Qed.

Lemma candidates_filter t1 t2 (items : list (entity_id * Entity)) :
  (t1 <= t2)%Q ->
  candidates ratio t2 items
  = filter (fun c => Qle_bool t2 (similarity c)) (candidates ratio t1 items).
Proof.
  intros Hle. induction items as [|e1 later IH]; [reflexivity|].
  simpl. rewrite filter_app, filter_flat_map, <- IH. f_equal.
  apply flat_map_ext. intros e2. apply compare_entities_filter, Hle.
Qed.

End DetectorFacts.

Section DetectorClaims.
Import Py Resolution Vocabulary Samples.

Example find_similar_sample :
  map (fun c => (id1 c, id2 c, matched_variants c))
      (find_similar_entities exact_ratio three_entities 85%Q)
  = [(Some (str "D1"), Some (str "D2"), Some (str "acme", str "acme"))]
  /\ List.length (find_similar_entities exact_ratio three_entities 30%Q) = 3.
Proof. split; reflexivity. Qed.

(** C9.  Duplicate detection is monotone in the threshold: for thresholds
    [t1 <= t2], the candidates reported at [t2] are those reported at [t1]
    whose similarity reaches [t2]; so they are among those reported at [t1]
    and are not more numerous.  The reason: a pair is reported exactly when
    its score, which bounds the ratio of every pair of variants and does not
    depend on the threshold, reaches the threshold. *)
Theorem find_similar_entities_monotone
        (ratio : text -> text -> Q) (m : EntityMap) (t1 t2 : Q) :
  (t1 <= t2)%Q ->
  find_similar_entities ratio m t2
  = filter (fun c => Qle_bool t2 (similarity c))
           (find_similar_entities ratio m t1)
  /\ (forall c, In c (find_similar_entities ratio m t2) ->
                In c (find_similar_entities ratio m t1))
  /\ List.length (find_similar_entities ratio m t2)
     <= List.length (find_similar_entities ratio m t1)
  /\ (forall t e1 e2,
        let max_similarity :=
          fst (compare_variants ratio (normalized_variants (snd e1))
                                (normalized_variants (snd e2))) in
        (compare_entities ratio t e1 e2 <> [] <-> (t <= max_similarity)%Q)
        /\ (forall name1 name2,
              In name1 (normalized_variants (snd e1)) ->
              In name2 (normalized_variants (snd e2)) ->
              (ratio name1 name2 <= max_similarity)%Q)).
Proof.
  intros Hle.
  assert (Heq : find_similar_entities ratio m t2
                = filter (fun c => Qle_bool t2 (similarity c))
                         (find_similar_entities ratio m t1)).
  { rewrite !find_similar_entities_candidates.
    apply candidates_filter, Hle. }
  split; [exact Heq|]. split; [|split].
  - intros c Hc. rewrite Heq in Hc. apply filter_In in Hc. apply Hc.
  - rewrite Heq. apply filter_length_le.
  - intros t e1 e2 mx. split.
    + rewrite compare_entities_kept. cbv zeta. fold mx.
      rewrite <- Qle_bool_iff.
      destruct (Qle_bool t mx); split; try discriminate; try congruence.
    + intros n1 n2 H1 H2. apply compare_variants_bounds; assumption.
Qed.

Lemma find_similar_entities_monotone_witness :
  (30 <= 85)%Q
  /\ (forall c,
        In c (find_similar_entities exact_ratio three_entities 85%Q) ->
        In c (find_similar_entities exact_ratio three_entities 30%Q))
  /\ List.length (find_similar_entities exact_ratio three_entities 85%Q)
     <= List.length (find_similar_entities exact_ratio three_entities 30%Q).
Proof.
  assert (Hle : (30 <= 85)%Q) by (unfold Qle; simpl; lia).
  split; [exact Hle|].
  destruct (@find_similar_entities_monotone exact_ratio three_entities
              30%Q 85%Q Hle) as [_ [Hin [Hlen _]]].
  split; [exact Hin | exact Hlen].
Defined.

End DetectorClaims.

(** ** The relationship table *)

Section AggregatorFacts.
Import Py Resolution Integration Vocabulary Samples.

Implicit Types (r : Relationship) (rs : list Relationship).

Lemma flat_map_singleton {A B : Type} (f : A -> B) (l : list A) :
  flat_map (fun x => [f x]) l = map f l.
Proof. induction l as [|x l IH]; simpl; [|rewrite IH]; reflexivity. Qed.

Lemma pair_edges_pairs source mention rs :
  pair_edges source mention rs = rs ++ pairs source mention.
Proof.
  unfold pair_edges, pairs.
  generalize (developers mention) as devs. intros devs. revert rs.
  induction devs as [|dev devs IH]; intros rs; simpl.
  - rewrite app_nil_r. reflexivity.
  - rewrite IH.
    rewrite (fold_left_append
               (fun inv =>
                  [ {| entity_1 := mention_id dev;
                       entity_1_name := entity_name dev;
                       entity_2 := mention_id inv;
                       entity_2_name := entity_name inv;
                       relationship_type := mentioned_together;
                       source_type := source;
                       source_id := document_id mention |} ])).
    rewrite flat_map_singleton, <- app_assoc. reflexivity.
Qed.

Lemma document_edges_pairs source (mentions : list DocMentions) :
  forall rs,
    document_edges source mentions rs = rs ++ flat_map (pairs source) mentions.
Proof.
  unfold document_edges.
  induction mentions as [|mn mentions IH]; intros rs; simpl.
  - rewrite app_nil_r. reflexivity.
  - rewrite IH, pair_edges_pairs, <- app_assoc. reflexivity.
Qed.

(** A position that a match has passed holds a digit, so no match starts
    there: the scan of the regular expression finds every token. *)
Lemma match_project_id_head (c : ascii) (s : text) :
  is_digit c = true -> match_project_id (c :: s) = false.
Proof.
  intros Hc. unfold match_project_id.
  destruct s as [|a [|b [|d s]]]; try reflexivity.
  destruct (Ascii.eqb c "P"%char) eqn:HP; [|reflexivity].
  apply Ascii.eqb_eq in HP. subst c. discriminate Hc.
Qed.

Lemma findall_from_tokens (s : text) :
  forall skip,
    Forall (fun c => is_digit c = true) (firstn skip s) ->
    findall_from skip s = tokens s.
Proof.
  induction s as [|x s IH]; intros skip Hskip; [reflexivity|].
  cbn [findall_from tokens]. destruct skip as [|k].
  - destruct (match_project_id (x :: s)) eqn:Hm.
    + cbn [app]. f_equal. apply IH.
      unfold match_project_id in Hm.
      destruct s as [|a [|b [|c s]]]; try discriminate.
      apply andb_true_iff in Hm. destruct Hm as [Hm Hc].
      apply andb_true_iff in Hm. destruct Hm as [Hm Hb].
      apply andb_true_iff in Hm. destruct Hm as [_ Ha].
      simpl. repeat constructor; assumption.
    + apply IH. constructor.
  - simpl in Hskip. inversion Hskip; subst.
    rewrite match_project_id_head by assumption. apply IH. assumption.
Qed.

Lemma findall_project_ids_tokens (s : text) :
  findall_project_ids s = tokens s.
Proof. apply findall_from_tokens. constructor. Qed.

Lemma project_edge_fold developers_table row (ids : list text) :
  forall rs,
    fold_left (project_edge developers_table row) ids rs
    = rs ++ flat_map
              (fun project_id =>
                 match select_project developers_table project_id with
                 | [] => []
                 | dev_row :: _ => [note_edge row dev_row]
                 end) ids.
Proof.
  induction ids as [|pid ids IH]; intros rs; simpl.
  - rewrite app_nil_r. reflexivity.
  - rewrite IH. unfold project_edge at 1.
    destruct (select_project developers_table pid).
    + reflexivity.
    + rewrite <- app_assoc. reflexivity.
Qed.

Lemma investor_edges_notes developers_table rs row :
  investor_edges developers_table rs row = rs ++ notes developers_table row.
Proof.
  unfold investor_edges, notes. destruct (PriorInteractions row).
  - rewrite project_edge_fold, findall_project_ids_tokens. reflexivity.
  - rewrite app_nil_r. reflexivity.
Qed.

(** The generation order: the edges of the emails, then those of the
    transcripts, then those of the investor notes, each in input order. *)
Lemma generated_edges_order developers_table investors_table
      (email_mentions transcript_mentions : list DocMentions) :
  generated_edges developers_table investors_table
                  email_mentions transcript_mentions
  = flat_map (pairs email) email_mentions
    ++ flat_map (pairs transcript) transcript_mentions
    ++ flat_map (notes developers_table) investors_table.
Proof.
  unfold generated_edges. rewrite !document_edges_pairs. simpl app.
  rewrite app_assoc.
  generalize (flat_map (pairs email) email_mentions
              ++ flat_map (pairs transcript) transcript_mentions) as rs.
  induction investors_table as [|row rows IH]; intros rs; simpl.
  - rewrite app_nil_r. reflexivity.
  - rewrite IH, investor_edges_notes, <- app_assoc. reflexivity.
Qed.

End AggregatorFacts.

Section DropDuplicatesFacts.
Import Py Resolution Integration Vocabulary Samples.

Implicit Types (r : Relationship) (rs : list Relationship).

(** A row is kept exactly when it is the first of its key. *)
Lemma drop_duplicates_from_In rs :
  forall seen r,
    In r (drop_duplicates_from seen rs) <->
    exists before after,
      rs = before ++ r :: after
      /\ ~ In (edge_key r) seen
      /\ ~ In (edge_key r) (map edge_key before).
Proof.
  induction rs as [|x rs IH]; intros seen r; simpl.
  - split; [intros [] | intros [[|? ?] [? [H _]]]; discriminate H].
  - destruct (in_dec eq_dec (edge_key x) seen) as [Hx | Hx].
    + rewrite IH. split.
      * intros [before [after [-> [Hs Hb]]]].
        exists (x :: before), after. split; [reflexivity|].
        split; [exact Hs|]. simpl. intros [Heq | Hin]; [|auto].
        apply Hs. rewrite <- Heq. exact Hx.
      * intros [[|y before] [after [Heq [Hs Hb]]]]; simpl in Heq.
        -- inversion Heq; subst. contradiction.
        -- inversion Heq; subst. exists before, after.
           split; [reflexivity|]. split; [exact Hs|].
           intros Hin. apply Hb. right. exact Hin.
    + simpl. rewrite IH. split.
      * intros [<- | [before [after [-> [Hs Hb]]]]].
        -- exists [], rs. split; [reflexivity|]. split; [exact Hx | intros []].
        -- exists (x :: before), after. split; [reflexivity|].
           split; [intros H; apply Hs; right; exact H|].
           simpl. intros [Heq | Hin]; [|auto].
           apply Hs. left. exact Heq.
      * intros [[|y before] [after [Heq [Hs Hb]]]]; simpl in Heq.
        -- inversion Heq; subst. left. reflexivity.
        -- inversion Heq; subst. right. exists before, after.
           split; [reflexivity|]. split.
           ++ intros [H | H]; [|contradiction].
              apply Hb. left. exact H.
           ++ intros Hin. apply Hb. right. exact Hin.
Qed.

(** No two kept rows share a key. *)
Lemma drop_duplicates_from_NoDup rs :
  forall seen, NoDup (map edge_key (drop_duplicates_from seen rs)).
Proof.
  induction rs as [|x rs IH]; intros seen; simpl; [constructor|].
  destruct (in_dec eq_dec (edge_key x) seen); [apply IH|].
  simpl. constructor; [|apply IH].
  intros Hin. apply in_map_iff in Hin. destruct Hin as [r [Hk Hr]].
  apply drop_duplicates_from_In in Hr.
  destruct Hr as [_ [_ [_ [Hs _]]]]. apply Hs. left. symmetry. exact Hk.
Qed.

(** Every key of the input is the key of a kept row. *)
Lemma drop_duplicates_from_complete rs :
  forall seen r,
    In r rs -> ~ In (edge_key r) seen ->
    exists r', In r' (drop_duplicates_from seen rs)
               /\ edge_key r' = edge_key r.
Proof.
  induction rs as [|x rs IH]; intros seen r Hin Hs; [destruct Hin|].
  simpl. destruct (in_dec eq_dec (edge_key x) seen) as [Hx | Hx].
  - destruct Hin as [-> | Hin]; [contradiction|]. apply IH; assumption.
  - destruct (eq_dec (edge_key x) (edge_key r)) as [Heq | Hne].
    + exists x. split; [left; reflexivity | exact Heq].
    + destruct Hin as [-> | Hin]; [contradiction Hne; reflexivity|].
      destruct (IH (edge_key x :: seen) r Hin) as [r' [Hr' Hk]].
      * intros [H | H]; contradiction.
      * exists r'. split; [right; exact Hr' | exact Hk].
Qed.

Lemma create_relationships_table_drop developers_table investors_table
      (email_mentions transcript_mentions : list DocMentions) :
  create_relationships_table developers_table investors_table
                             email_mentions transcript_mentions
  = drop_duplicates
      (generated_edges developers_table investors_table
                       email_mentions transcript_mentions).
Proof.
  unfold create_relationships_table.
  destruct (generated_edges _ _ _ _); reflexivity.
Qed.



End DropDuplicatesFacts.

Section AggregatorClaims.
Import Py Resolution Integration Vocabulary Samples.

(** The scenario of the specification: D1 and I1 in the email E001, and,
    here, in the transcript T001 as well: one edge, that of the email. *)
Example one_edge_for_e001 :
  create_relationships_table [] [] [email_e001] [transcript_t001]
  = [ {| entity_1 := Some (str "D1");
         entity_1_name := Some (str "VerdeNova Solutions");
         entity_2 := Some (str "I1");
         entity_2_name := Some (str "NorthStar Capital");
         relationship_type := mentioned_together;
         source_type := email;
         source_id := Some (str "E001") |} ].
Proof. reflexivity. Qed.

(** C5.  The output holds at most one edge for each triple
    [(entity_1, entity_2, relationship_type)], and the edge kept for a triple
    is the first with that triple in generation order: an edge is in the
    output exactly when no edge generated before it has its triple.  The
    generation order is: the edges of the emails, then those of the
    transcripts, then those of the investor notes, each in input order.
    Every generated triple is kept once. *)
Theorem create_relationships_table_first_wins
        (developers_table : list DeveloperRow)
        (investors_table : list InvestorRow)
        (email_mentions transcript_mentions : list DocMentions) :
  NoDup (map edge_key
             (create_relationships_table developers_table investors_table
                                         email_mentions transcript_mentions))
  /\ generated_edges developers_table investors_table
                     email_mentions transcript_mentions
     = generation_order developers_table investors_table
                        email_mentions transcript_mentions
  /\ (forall r,
        In r (create_relationships_table developers_table investors_table
                                         email_mentions transcript_mentions)
        <-> exists before after,
              generation_order developers_table investors_table
                               email_mentions transcript_mentions
              = before ++ r :: after
              /\ ~ In (edge_key r) (map edge_key before))
  /\ (forall r,
        In r (generation_order developers_table investors_table
                               email_mentions transcript_mentions) ->
        exists r',
          In r' (create_relationships_table developers_table investors_table
                                            email_mentions transcript_mentions)
          /\ edge_key r' = edge_key r)
  /\ Forall (fun r => source_type r = email)
            (flat_map (pairs email) email_mentions)
  /\ Forall (fun r => source_type r = transcript)
            (flat_map (pairs transcript) transcript_mentions)
  /\ Forall (fun r => source_type r = investor_notes)
            (flat_map (notes developers_table) investors_table).
Proof.
  rewrite create_relationships_table_drop, generated_edges_order.
  fold (generation_order developers_table investors_table
                         email_mentions transcript_mentions).
  unfold drop_duplicates.
  split; [apply drop_duplicates_from_NoDup|]. split; [reflexivity|].
  split; [|split; [|split; [|split]]].
  - intros r. rewrite drop_duplicates_from_In. split.
    + intros [before [after [H1 [_ H2]]]]. eauto.
    + intros [before [after [H1 H2]]]. exists before, after. auto.
  - intros r Hr. apply drop_duplicates_from_complete; [exact Hr | intros []].
  - apply Forall_forall. intros r H. apply in_flat_map in H.
    destruct H as [mn [_ H]]. unfold pairs in H. apply in_flat_map in H.
    destruct H as [dev [_ H]]. apply in_map_iff in H.
    destruct H as [inv [<- _]]. reflexivity.
  - apply Forall_forall. intros r H. apply in_flat_map in H.
    destruct H as [mn [_ H]]. unfold pairs in H. apply in_flat_map in H.
    destruct H as [dev [_ H]]. apply in_map_iff in H.
    destruct H as [inv [<- _]]. reflexivity.
  - apply Forall_forall. intros r H. apply in_flat_map in H.
    destruct H as [row [_ H]]. unfold notes in H.
    destruct (PriorInteractions row); [|destruct H].
    apply in_flat_map in H. destruct H as [pid [_ H]].
    destruct (select_project developers_table pid); [destruct H|].
    destruct H as [<- | []]. reflexivity.
Qed.

(** The scenario of the specification for the investor notes. *)
Example one_edge_for_i2 :
  create_relationships_table [developer_d3] [investor_i2] [] []
  = [ {| entity_1 := Some (str "I2");
         entity_1_name := Some (str "Blue Fund");
         entity_2 := Some (str "D3");
         entity_2_name := Some (str "Dev Three");
         relationship_type := prior_interaction;
         source_type := investor_notes;
         source_id := Some (str "I2") |} ].
Proof. reflexivity. Qed.

Example tokens_sample :
  findall_project_ids (str "P001, XP0234 and P12 or P999")
  = [str "P001"; str "P023"; str "P999"].
Proof. reflexivity. Qed.



End AggregatorClaims.

(* ================================================================== *)
(** * Part III.  Further properties of the code                      *)
(* ================================================================== *)

(** ** The normalizer: the shape of a normalized name *)

Section NormalizerShape.
Import Py Resolution Steps Vocabulary Samples.

Lemma pipeline_length (s : text) :
  List.length (pipeline s) <= List.length (lower s).
Proof.
  unfold pipeline, tidy.
  pose proof (delete_patterns_length (lower s) suffix_patterns_not_empty) as H1.
  set (d := delete_patterns suffix_patterns (lower s)) in *.
  pose proof (filter_length_le (fun c => negb (is_period_or_comma c)) d) as H2.
  set (f := filter (fun c => negb (is_period_or_comma c)) d) in *.
  pose proof (join_split_length (map hyphen_to_space f)) as H3.
  rewrite length_map in H3. lia.
Qed.

Lemma pipeline_only_plain_spaces (s : text) :
  Forall (fun c => is_space c = true -> c = " "%char) (pipeline s).
Proof.
  unfold pipeline, tidy. apply join_Forall.
  - repeat constructor.
  - eapply Forall_impl; [|apply split_words].
    intros w [_ Hw]. eapply Forall_impl; [|exact Hw].
    intros c Hc Hs. congruence.
Qed.

(** The result of [normalize_name], whatever the input: every character is
    its own lower case, none is a period, a comma or a hyphen, the only white
    space left is the plain space, and the result is not longer than the
    lower-cased input: after [lower] no step adds a character. *)
Theorem normalize_name_shape (name : cell) :
  (forall c, In c (normalize_name name) ->
             lower_char c = c
             /\ c <> "."%char /\ c <> ","%char /\ c <> "-"%char
             /\ (is_space c = true -> c = " "%char))
  /\ (forall s, name = Some s ->
                List.length (normalize_name name) <= List.length (lower s)).
Proof.
  destruct name as [s|].
  - rewrite normalize_name_pipeline. split.
    + intros c Hc.
      pose proof (pipeline_clean s) as H1.
      pose proof (pipeline_only_plain_spaces s) as H2.
      rewrite Forall_forall in H1, H2.
      destruct (H1 c Hc) as [Hl [Hpc Hh]]. specialize (H2 c Hc).
      unfold is_period_or_comma in Hpc. apply orb_false_iff in Hpc.
      destruct Hpc as [Hp Hcm].
      repeat split; try assumption.
      * intros ->. discriminate Hp.
      * intros ->. discriminate Hcm.
      * intros ->. discriminate Hh.
    + intros s' H. inversion H; subst. apply pipeline_length.
  - split; [intros c [] | intros s H; discriminate H].
Qed.

Lemma normalize_name_changes_with_pattern_witness :
  (exists p, In p suffix_patterns
             /\ contains p (normalize_name (Some (str "a-ltd"))) = true)
  /\ normalize_name (Some (normalize_name (Some (str "a-ltd"))))
     <> normalize_name (Some (str "a-ltd")).
Proof.
  assert (H : exists p, In p suffix_patterns
                /\ contains p (normalize_name (Some (str "a-ltd"))) = true).
  { exists (str " ltd"). split; [left; reflexivity | reflexivity]. }
  split; [exact H|].
  exact (normalize_name_changes_with_pattern (Some (str "a-ltd")) H).
Defined.

End NormalizerShape.

(** ** The entity map builder: records that share an identifier *)

Section BuilderOverwrites.
Import Py Resolution Vocabulary Samples.

Variable list_set : list text -> list text.

Implicit Types (df : DataFrame) (row : list cell) (m : EntityMap).

Lemma build_loop_app df id_col name_col alt_names_col
      (todo1 todo2 : list (list cell)) :
  forall m,
    build_loop list_set df id_col name_col alt_names_col (todo1 ++ todo2) m
    = (m1 <- build_loop list_set df id_col name_col alt_names_col todo1 m ;;
       build_loop list_set df id_col name_col alt_names_col todo2 m1).
Proof.
  induction todo1 as [|row todo1 IH]; intros m; [reflexivity|].
  simpl.
  destruct (build_entity list_set df id_col name_col alt_names_col row m);
    [apply IH | reflexivity].
Qed.

(** Records with other identifiers leave an entry as it is. *)
Lemma build_loop_get_other df id_col name_col alt_names_col todo
      (i : entity_id) :
  (forall r, In r todo -> row_get df r id_col <> Ok i) ->
  forall m m',
    build_loop list_set df id_col name_col alt_names_col todo m = Ok m' ->
    Dict.get i m' = Dict.get i m.
Proof.
  induction todo as [|row todo IH]; intros Hother m m' H; simpl in H.
  - inversion H. reflexivity.
  - destruct (build_entity list_set df id_col name_col alt_names_col row m)
      as [m1|] eqn:Hb; [|discriminate]. simpl in H.
    rewrite (IH (fun r Hr => Hother r (or_intror Hr)) _ _ H).
    apply build_entity_inv in Hb.
    destruct Hb as [i0 [c [alts [Hi [_ [_ ->]]]]]].
    apply get_set_other. intros ->. apply (Hother row (or_introl eq_refl)), Hi.
Qed.

(** When several records share an identifier, the entity of the map is that
    of the last of them: for a record after which no record has its
    identifier, the map holds, under that identifier, the record's name as
    canonical name, its parsed alternates, and the normalized forms of
    both. *)
Theorem build_entity_mapping_last_record
        (df : DataFrame) (id_col name_col : text)
        (alt_names_col : option text) (m : EntityMap)
        (before after : list (list cell)) (row : list cell)
        (i : entity_id) :
  build_entity_mapping list_set df id_col name_col alt_names_col = Ok m ->
  rows df = before ++ row :: after ->
  row_get df row id_col = Ok i ->
  (forall r, In r after -> row_get df r id_col <> Ok i) ->
  exists e,
    Dict.get i m = Some e
    /\ row_get df row name_col = Ok (canonical_name e)
    /\ parse_alternates df row alt_names_col = Ok (alternate_names e)
    /\ normalized_variants e
       = list_set (map normalize_name
                       (canonical_name e :: map Some (alternate_names e))).
Proof.
  unfold build_entity_mapping. intros Hb Hrows Hi Hafter.
  rewrite Hrows, build_loop_app in Hb.
  destruct (build_loop list_set df id_col name_col alt_names_col before
                       Dict.empty) as [m0|]; [|discriminate].
  simpl in Hb.
  destruct (build_entity list_set df id_col name_col alt_names_col row m0)
    as [m1|] eqn:Hrow; [|discriminate]. simpl in Hb.
  rewrite (build_loop_get_other _ _ _ _ _ Hafter _ Hb).
  apply build_entity_inv in Hrow.
  destruct Hrow as [i0 [c [alts [Hi0 [Hc [Ha ->]]]]]].
  rewrite Hi in Hi0. inversion Hi0; subst i0.
  eexists. split; [apply get_set_same|]. simpl. auto.
Qed.

End BuilderOverwrites.

Section BuilderOverwritesWitness.
Import Py Resolution Vocabulary Samples MoreSamples.

Lemma build_entity_mapping_last_record_witness :
  build_entity_mapping dedup renamed_sample (str "DeveloperID")
    (str "DeveloperName") (Some (str "AlternateNames"))
  = Ok [(Some (str "D1"), acme_capital_entity)]
  /\ rows renamed_sample
     = [[Some (str "D1"); Some (str "Acme Ltd"); Some (str "Acme; -")]]
       ++ [Some (str "D1"); Some (str "Acme Capital"); None] :: []
  /\ exists e,
       Dict.get (Some (str "D1")) [(Some (str "D1"), acme_capital_entity)]
       = Some e
       /\ row_get renamed_sample
            [Some (str "D1"); Some (str "Acme Capital"); None]
            (str "DeveloperName")
          = Ok (canonical_name e).
Proof.
  split; [reflexivity|]. split; [reflexivity|].
  destruct (@build_entity_mapping_last_record dedup renamed_sample
              (str "DeveloperID") (str "DeveloperName")
              (Some (str "AlternateNames"))
              [(Some (str "D1"), acme_capital_entity)]
              [[Some (str "D1"); Some (str "Acme Ltd");
                Some (str "Acme; -")]]
              []
              [Some (str "D1"); Some (str "Acme Capital"); None]
              (Some (str "D1")) eq_refl eq_refl eq_refl
              (fun r (H : In r []) => match H with end))
    as [e [Hget [Hname _]]].
  exists e. split; [exact Hget | exact Hname].
Defined.

End BuilderOverwritesWitness.

(** ** The duplicate detector: what a report holds *)

Section DetectorReport.
Import Py Resolution Vocabulary Samples.

Variable ratio : text -> text -> Q.

Implicit Types (items : list (entity_id * Entity)) (c : Duplicate).

Lemma candidates_sound threshold items c :
  In c (candidates ratio threshold items) ->
  exists pre e1 mid e2 post,
    items = pre ++ e1 :: mid ++ e2 :: post
    /\ In c (compare_entities ratio threshold e1 e2).
Proof.
  induction items as [|e1 later IH]; simpl; [intros []|].
  intros H. apply in_app_or in H. destruct H as [H | H].
  - apply in_flat_map in H. destruct H as [e2 [He2 Hc]].
    apply in_split in He2. destruct He2 as [mid [post ->]].
    exists [], e1, mid, e2, post. split; [reflexivity | exact Hc].
  - destruct (IH H) as [pre [x [mid [y [post [-> Hc]]]]]].
    exists (e1 :: pre), x, mid, y, post. split; [reflexivity | exact Hc].
Qed.

Lemma candidates_complete threshold pre e1 mid e2 post c :
  In c (compare_entities ratio threshold e1 e2) ->
  In c (candidates ratio threshold (pre ++ e1 :: mid ++ e2 :: post)).
Proof.
  intros Hc. induction pre as [|x pre IH]; simpl.
  - apply in_or_app. left. apply in_flat_map. exists e2.
    split; [apply in_or_app; right; left; reflexivity | exact Hc].
  - apply in_or_app. right. exact IH.
Qed.

Lemma compare_variants_not_negative (variants1 variants2 : list text) :
  (0 <= fst (compare_variants ratio variants1 variants2))%Q.
Proof. apply (outer_loop_grows ratio variants1 variants2 (0%Q, None)). Qed.

Lemma compare_entities_length threshold (e1 e2 : entity_id * Entity) :
  List.length (compare_entities ratio threshold e1 e2) <= 1.
Proof.
  rewrite compare_entities_kept. cbv zeta.
  destruct (Qle_bool _ _); simpl; lia.
Qed.

Lemma compare_entities_all threshold (e1 e2 : entity_id * Entity) :
  (threshold <= 0)%Q ->
  List.length (compare_entities ratio threshold e1 e2) = 1.
Proof.
  intros Ht. rewrite compare_entities_kept. cbv zeta.
  assert (H : Qle_bool threshold
                (fst (compare_variants ratio (normalized_variants (snd e1))
                                       (normalized_variants (snd e2))))
              = true).
  { apply Qle_bool_iff. eapply Qle_trans; [exact Ht|].
    apply compare_variants_not_negative. }
  rewrite H. reflexivity.
Qed.

Lemma flat_map_length_le {A B : Type} (f : A -> list B) (l : list A) :
  (forall x, List.length (f x) <= 1) ->
  List.length (flat_map f l) <= List.length l.
Proof.
  intros H. induction l as [|x l IH]; simpl; [lia|].
  rewrite length_app. specialize (H x). lia.
Qed.

Lemma flat_map_length_eq {A B : Type} (f : A -> list B) (l : list A) :
  (forall x, List.length (f x) = 1) ->
  List.length (flat_map f l) = List.length l.
Proof.
  intros H. induction l as [|x l IH]; simpl; [lia|].
  rewrite length_app. specialize (H x). lia.
Qed.

(** Every reported candidate is a pair of two entities of the map, the
    first standing before the second, so no pair is reported twice or
    mirrored; its similarity reaches the threshold, is not negative, bounds
    the ratio of every pair of their variants, and is the ratio of the
    recorded pair of variants (0 when none is recorded). *)
Theorem find_similar_entities_sound
        (m : EntityMap) (threshold : Q) (c : Duplicate) :
  In c (find_similar_entities ratio m threshold) ->
  exists pre e1 mid e2 post,
    m = pre ++ e1 :: mid ++ e2 :: post
    /\ id1 c = fst e1 /\ entity1 c = canonical_name (snd e1)
    /\ id2 c = fst e2 /\ entity2 c = canonical_name (snd e2)
    /\ (threshold <= similarity c)%Q
    /\ (0 <= similarity c)%Q
    /\ (forall name1 name2,
          In name1 (normalized_variants (snd e1)) ->
          In name2 (normalized_variants (snd e2)) ->
          (ratio name1 name2 <= similarity c)%Q)
    /\ match matched_variants c with
       | Some (name1, name2) =>
           In name1 (normalized_variants (snd e1))
           /\ In name2 (normalized_variants (snd e2))
           /\ similarity c = ratio name1 name2
       | None => similarity c = 0%Q
       end.
Proof.
  rewrite find_similar_entities_candidates. intros H.
  apply candidates_sound in H.
  destruct H as [pre [e1 [mid [e2 [post [-> Hc]]]]]].
  exists pre, e1, mid, e2, post. split; [reflexivity|].
  rewrite compare_entities_kept in Hc. cbv zeta in Hc.
  destruct (Qle_bool threshold _) eqn:Ht; [|destruct Hc].
  destruct Hc as [<- | []]. simpl.
  repeat split.
  - apply Qle_bool_iff, Ht.
  - apply compare_variants_not_negative.
  - intros n1 n2 H1 H2. apply compare_variants_bounds; assumption.
  - pose proof (compare_variants_attained ratio
                  (normalized_variants (snd e1))
                  (normalized_variants (snd e2))) as Ha.
    unfold attained in Ha.
    destruct (snd (compare_variants ratio _ _)) as [[n1 n2]|]; exact Ha.
Qed.

(** Two entities of the map are reported as soon as the ratio of one pair
    of their variants reaches the threshold, and whatever their variants
    when the threshold is not positive. *)
Theorem find_similar_entities_complete
        (pre mid post : EntityMap) (e1 e2 : entity_id * Entity)
        (threshold : Q) :
  (forall name1 name2,
      In name1 (normalized_variants (snd e1)) ->
      In name2 (normalized_variants (snd e2)) ->
      (threshold <= ratio name1 name2)%Q ->
      exists c,
        In c (find_similar_entities ratio (pre ++ e1 :: mid ++ e2 :: post)
                                    threshold)
        /\ id1 c = fst e1 /\ id2 c = fst e2
        /\ (ratio name1 name2 <= similarity c)%Q)
  /\ ((threshold <= 0)%Q ->
      exists c,
        In c (find_similar_entities ratio (pre ++ e1 :: mid ++ e2 :: post)
                                    threshold)
        /\ id1 c = fst e1 /\ id2 c = fst e2).
Proof.
  assert (Hkept : (threshold
                   <= fst (compare_variants ratio
                             (normalized_variants (snd e1))
                             (normalized_variants (snd e2))))%Q ->
                  exists c,
                    In c (find_similar_entities ratio
                            (pre ++ e1 :: mid ++ e2 :: post) threshold)
                    /\ id1 c = fst e1 /\ id2 c = fst e2
                    /\ similarity c
                       = fst (compare_variants ratio
                                (normalized_variants (snd e1))
                                (normalized_variants (snd e2)))).
  { intros Hle. apply Qle_bool_iff in Hle. eexists. split.
    - rewrite find_similar_entities_candidates.
      apply candidates_complete. rewrite compare_entities_kept. cbv zeta.
      rewrite Hle. left. reflexivity.
    - simpl. auto. }
  split.
  - intros n1 n2 H1 H2 Hle.
    pose proof (compare_variants_bounds ratio _ _ _ _ H1 H2) as Hb.
    destruct (Hkept (Qle_trans _ _ _ Hle Hb)) as [c [Hc [Hi1 [Hi2 Hs]]]].
    exists c. rewrite Hs. auto.
  - intros Ht.
    destruct (Hkept (Qle_trans _ _ _ Ht
                       (compare_variants_not_negative _ _)))
      as [c [Hc [Hi1 [Hi2 _]]]].
    exists c. auto.
Qed.

(** The report holds at most one candidate for each pair of entities of the
    map, and exactly one when the threshold is not positive. *)
Theorem find_similar_entities_count (m : EntityMap) (threshold : Q) :
  2 * List.length (find_similar_entities ratio m threshold)
  <= List.length m * (List.length m - 1)
  /\ ((threshold <= 0)%Q ->
      2 * List.length (find_similar_entities ratio m threshold)
      = List.length m * (List.length m - 1)).
Proof.
  rewrite find_similar_entities_candidates. split.
  - induction m as [|e1 later IH]; simpl; [lia|].
    rewrite length_app.
    pose proof (flat_map_length_le (compare_entities ratio threshold e1)
                  later (compare_entities_length threshold e1)) as H.
    rewrite Nat.sub_0_r. destruct later; simpl in *; nia.
  - intros Ht. induction m as [|e1 later IH]; simpl; [lia|].
    rewrite length_app.
    rewrite (flat_map_length_eq (compare_entities ratio threshold e1)
               later (fun e2 => compare_entities_all e1 e2 Ht)).
    rewrite Nat.sub_0_r. destruct later; simpl in *; nia.
Qed.

End DetectorReport.

Section DetectorReportWitness.
Import Py Resolution Vocabulary Samples MoreSamples.

Lemma find_similar_entities_sound_witness :
  In acme_pair (find_similar_entities exact_ratio three_entities 85%Q)
  /\ (85 <= similarity acme_pair)%Q.
Proof.
  assert (H : In acme_pair
                 (find_similar_entities exact_ratio three_entities 85%Q))
    by (left; reflexivity).
  split; [exact H|].
  destruct (find_similar_entities_sound exact_ratio three_entities 85%Q
              acme_pair H)
    as [pre [e1 [mid [e2 [post [_ [_ [_ [_ [_ [Hle _]]]]]]]]]]].
  exact Hle.
Defined.

Lemma find_similar_entities_complete_witness :
  In (str "acme") (normalized_variants acme_entity)
  /\ In (str "acme") (normalized_variants acme_capital_entity)
  /\ (85 <= exact_ratio (str "acme") (str "acme"))%Q
  /\ exists c,
       In c (find_similar_entities exact_ratio
               ([] ++ (Some (str "D1"), acme_entity)
                   :: [] ++ (Some (str "D2"), acme_capital_entity)
                   :: [(Some (str "D3"), verdenova_entity)])
               85%Q)
       /\ id1 c = Some (str "D1") /\ id2 c = Some (str "D2").
Proof.
  assert (H1 : In (str "acme") (normalized_variants acme_entity))
    by (left; reflexivity).
  assert (H2 : In (str "acme") (normalized_variants acme_capital_entity))
    by (left; reflexivity).
  assert (H3 : (85 <= exact_ratio (str "acme") (str "acme"))%Q)
    by (vm_compute; discriminate).
  split; [exact H1|]. split; [exact H2|]. split; [exact H3|].
  destruct (proj1 (find_similar_entities_complete exact_ratio
                     [] [] [(Some (str "D3"), verdenova_entity)]
                     (Some (str "D1"), acme_entity)
                     (Some (str "D2"), acme_capital_entity) 85%Q)
                  (str "acme") (str "acme") H1 H2 H3)
    as [c [Hc [Hi1 [Hi2 _]]]].
  exists c. auto.
Defined.

End DetectorReportWitness.

(** ** The reverse lookup: what a key maps to *)

Section ReverseLookupSound.
Import Py Resolution Vocabulary Samples MoreSamples.

(** A key of the reverse lookup maps to the identifier of an entity of the
    map that has the key as its normalized canonical name or as a non-empty
    normalized variant: no name is resolved to an entity that does not bear
    it. *)
Theorem reverse_lookup_sound (m : EntityMap) (v : text) (id : entity_id) :
  Dict.get v (create_reverse_lookup m) = Some id ->
  exists e,
    In (id, e) m
    /\ (normalize_name (canonical_name e) = v
        \/ (In v (normalized_variants e) /\ v <> [])).
Proof.
  intros Hget.
  destruct (last_writer m v)
    as [Hnone | [pre [id' [e' [post [-> [Hw Hpost]]]]]]].
  - rewrite (reverse_lookup_unwritten m Hnone) in Hget. discriminate.
  - rewrite (reverse_lookup_last_writer pre post id' Hw Hpost) in Hget.
    inversion Hget; subst. exists e'. split; [|exact Hw].
    apply in_or_app. right. left. reflexivity.
Qed.

Lemma reverse_lookup_sound_witness :
  Dict.get (str "acme")
    (create_reverse_lookup
       [(Some (str "D1"), acme_entity);
        (Some (str "D2"), acme_capital_entity)])
  = Some (Some (str "D2"))
  /\ exists e,
       In (Some (str "D2"), e)
          [(Some (str "D1"), acme_entity);
           (Some (str "D2"), acme_capital_entity)].
Proof.
  split; [reflexivity|].
  destruct (@reverse_lookup_sound
              [(Some (str "D1"), acme_entity);
               (Some (str "D2"), acme_capital_entity)]
              (str "acme") (Some (str "D2")) eq_refl) as [e [He _]].
  exists e. exact He.
Defined.

Variable list_set : list text -> list text.
Hypothesis list_set_spec : forall xs v, In v (list_set xs) <-> In v xs.

Lemma built_canonical_in_variants (df : DataFrame) (id_col name_col : text)
      (alt_names_col : option text) (m : EntityMap) (i : entity_id)
      (e : Entity) :
  build_entity_mapping list_set df id_col name_col alt_names_col = Ok m ->
  In (i, e) m ->
  In (normalize_name (canonical_name e)) (normalized_variants e).
Proof.
  intros Hb Hin.
  destruct (@build_loop_built_from list_set df id_col name_col alt_names_col
              (rows df) Dict.empty m Hb i e Hin)
    as [[] | [row [_ [_ [_ [_ Hv]]]]]].
  rewrite Hv. apply list_set_spec. left. reflexivity.
Qed.

(** Building the entity map and then the reverse lookup resolves an
    unambiguous name to its owner: a non-empty normalized variant that the
    entities of one identifier only have among their variants is a key of
    the reverse lookup and maps to that identifier. *)
Theorem built_name_resolves
        (df : DataFrame) (id_col name_col : text)
        (alt_names_col : option text) (m : EntityMap)
        (i : entity_id) (e : Entity) (v : text) :
  build_entity_mapping list_set df id_col name_col alt_names_col = Ok m ->
  In (i, e) m -> In v (normalized_variants e) -> v <> [] ->
  (forall i' e', In (i', e') m -> In v (normalized_variants e') -> i' = i) ->
  Dict.get v (create_reverse_lookup m) = Some i.
Proof.
  intros Hb Hin Hv Hne Huniq.
  destruct (last_writer m v)
    as [Hnone | [pre [i' [e' [post [Hm [Hw Hpost]]]]]]].
  - exfalso. apply (Hnone i e Hin). right. split; assumption.
  - assert (Hin' : In (i', e') m).
    { rewrite Hm. apply in_or_app. right. left. reflexivity. }
    assert (Hv' : In v (normalized_variants e')).
    { destruct Hw as [<- | [H _]]; [|exact H].
      apply (@built_canonical_in_variants df id_col name_col alt_names_col
               m i' e' Hb Hin'). }
    rewrite <- (Huniq i' e' Hin' Hv'). rewrite Hm.
    apply reverse_lookup_last_writer; assumption.
Qed.

End ReverseLookupSound.

Section ReverseLookupRoundTripWitness.
Import Py Resolution Vocabulary Samples MoreSamples.

Lemma built_name_resolves_witness :
  (forall xs v, In v (dedup xs) <-> In v xs)
  /\ build_entity_mapping dedup developers_sample (str "DeveloperID")
       (str "DeveloperName") (Some (str "AlternateNames"))
     = Ok [(Some (str "D1"), acme_entity)]
  /\ In (str "acme") (normalized_variants acme_entity)
  /\ str "acme" <> []
  /\ Dict.get (str "acme")
       (create_reverse_lookup [(Some (str "D1"), acme_entity)])
     = Some (Some (str "D1")).
Proof.
  assert (Hv : In (str "acme") (normalized_variants acme_entity))
    by (left; reflexivity).
  assert (Hne : str "acme" <> []) by discriminate.
  split; [exact dedup_In|]. split; [reflexivity|].
  split; [exact Hv|]. split; [exact Hne|].
  apply (@built_name_resolves dedup dedup_In developers_sample
           (str "DeveloperID") (str "DeveloperName")
           (Some (str "AlternateNames"))
           [(Some (str "D1"), acme_entity)]
           (Some (str "D1")) acme_entity (str "acme") eq_refl
           (or_introl eq_refl) Hv Hne).
  intros i' e' [H | []] _. inversion H. reflexivity.
Defined.

End ReverseLookupRoundTripWitness.

(** ** The mention extractor: soundness, completeness, failure *)

Section MentionReport.
Import Py Resolution Vocabulary Samples MoreSamples.

Lemma named_or_missing (m : EntityMap) :
  named m \/ exists id e, In (id, e) m /\ canonical_name e = None.
Proof.
  induction m as [|[id e] m IH].
  - left. constructor.
  - destruct (canonical_name e) as [c|] eqn:Hc.
    + destruct IH as [IH | [i [x [Hin Hx]]]].
      * left. constructor; [simpl; congruence | exact IH].
      * right. exists i, x. split; [right; exact Hin | exact Hx].
    + right. exists id, e. split; [left; reflexivity | exact Hc].
Qed.

Lemma expected_mentions_In text_lower (id : entity_id) (e : Entity)
      (mn : Mention) :
  In mn (expected_mentions text_lower (id, e)) ->
  exists c,
    canonical_name e = Some c
    /\ mention_id mn = id /\ entity_name mn = Some c
    /\ (matched_text mn = c \/ In (matched_text mn) (alternate_names e))
    /\ contains (lower (matched_text mn)) text_lower = true.
Proof.
  unfold expected_mentions. simpl.
  destruct (canonical_name e) as [c|]; [|intros []].
  unfold occurs_in. destruct (contains (lower c) text_lower) eqn:Hc.
  - intros [<- | []]. exists c. simpl. repeat split; auto.
  - destruct (find _ (alternate_names e)) as [a|] eqn:Hf; [|intros []].
    apply find_some in Hf. destruct Hf as [Ha Hocc].
    intros [<- | []]. exists c. simpl. repeat split; auto.
Qed.

Lemma expected_mentions_found text_lower (id : entity_id) (e : Entity)
      (c : text) :
  canonical_name e = Some c ->
  contains (lower c) text_lower = true
  \/ (exists a, In a (alternate_names e)
                /\ contains (lower a) text_lower = true) ->
  exists mn, In mn (expected_mentions text_lower (id, e))
             /\ mention_id mn = id /\ entity_name mn = Some c.
Proof.
  intros Hc Hocc. unfold expected_mentions. simpl. rewrite Hc.
  unfold occurs_in. destruct (contains (lower c) text_lower) eqn:Hcan.
  - eexists. split; [left; reflexivity | simpl; auto].
  - destruct Hocc as [H | [a [Ha Hocc]]]; [discriminate|].
    destruct (find (fun alt => contains (lower alt) text_lower)
                   (alternate_names e)) as [b|] eqn:Hf.
    + eexists. split; [left; reflexivity | simpl; auto].
    + exfalso. pose proof (find_none _ _ Hf a Ha) as Hn. simpl in Hn.
      congruence.
Qed.

(** Every mention that the extractor returns is that of an entity of the
    map: it carries the entity's identifier and canonical name, its matched
    text is the canonical name or one of the alternate names, and the
    matched text, in lower case, is a substring of the lower-cased text. *)
Theorem find_entity_in_text_sound
        (txt : cell) (m : EntityMap) (found : list Mention) (mn : Mention) :
  find_entity_in_text txt m = Ok found -> In mn found ->
  exists s id e c,
    txt = Some s /\ In (id, e) m /\ canonical_name e = Some c
    /\ mention_id mn = id /\ entity_name mn = Some c
    /\ (matched_text mn = c \/ In (matched_text mn) (alternate_names e))
    /\ contains (lower (matched_text mn)) (lower s) = true.
Proof.
  destruct txt as [s|]; simpl; [|intros H; inversion H; intros []].
  intros Hfind Hin.
  destruct (named_or_missing m) as [Hnamed | Hmiss].
  - rewrite (find_loop_expected (lower s) Hnamed []) in Hfind.
    inversion Hfind; subst. simpl in Hin.
    apply in_flat_map in Hin. destruct Hin as [[id e] [Hm Hmn]].
    destruct (expected_mentions_In _ _ _ _ Hmn) as [c H].
    exists s, id, e, c. tauto.
  - rewrite (@find_loop_missing_name (lower s) m Hmiss []) in Hfind.
    discriminate.
Qed.

(** An entity whose canonical name or one of whose alternate names occurs
    in the text, case ignored, is mentioned, when all canonical names of the
    map are strings. *)
Theorem find_entity_in_text_complete
        (s : text) (m : EntityMap) (id : entity_id) (e : Entity) (c : text) :
  named m -> In (id, e) m -> canonical_name e = Some c ->
  contains (lower c) (lower s) = true
  \/ (exists a, In a (alternate_names e)
                /\ contains (lower a) (lower s) = true) ->
  exists found mn,
    find_entity_in_text (Some s) m = Ok found
    /\ In mn found /\ mention_id mn = id /\ entity_name mn = Some c.
Proof.
  intros Hnamed Hin Hc Hocc. simpl.
  rewrite (find_loop_expected (lower s) Hnamed []). simpl.
  destruct (expected_mentions_found (lower s) id e Hc Hocc)
    as [mn [Hmn [Hid Hname]]].
  exists (flat_map (expected_mentions (lower s)) m), mn.
  split; [reflexivity|]. split; [|auto].
  apply in_flat_map. exists (id, e). auto.
Qed.

(** On a text that is not missing the extractor fails exactly when some
    entity of the map has a missing canonical name, and then with an
    attribute error, wherever the entity stands and whatever the text. *)
Theorem find_entity_in_text_failure (s : text) (m : EntityMap) :
  (find_entity_in_text (Some s) m = Raise AttributeError
   <-> exists id e, In (id, e) m /\ canonical_name e = None)
  /\ (forall k, find_entity_in_text (Some s) m <> Raise (KeyError k)).
Proof.
  simpl. destruct (named_or_missing m) as [Hnamed | Hmiss].
  - rewrite (find_loop_expected (lower s) Hnamed []). split.
    + split; [discriminate|].
      intros [id [e [Hin He]]]. exfalso.
      unfold named in Hnamed. rewrite Forall_forall in Hnamed.
      apply (Hnamed (id, e) Hin). exact He.
    + intros k. discriminate.
  - rewrite (@find_loop_missing_name (lower s) m Hmiss []). split.
    + split; [intros _; exact Hmiss | reflexivity].
    + intros k. discriminate.
Qed.

(** When all canonical names of the map are strings, an entity whose
    canonical name is the empty string is mentioned in every text that is
    not missing: the empty string is a substring of every text. *)
Theorem find_entity_in_text_empty_name
        (s : text) (m : EntityMap) (id : entity_id) (e : Entity) :
  named m -> In (id, e) m -> canonical_name e = Some [] ->
  exists found,
    find_entity_in_text (Some s) m = Ok found
    /\ In {| mention_id := id; entity_name := Some [];
             matched_text := [] |} found.
Proof.
  intros Hnamed Hin Hc. simpl.
  rewrite (find_loop_expected (lower s) Hnamed []). simpl.
  eexists. split; [reflexivity|].
  apply in_flat_map. exists (id, e). split; [exact Hin|].
  unfold expected_mentions. simpl. rewrite Hc. unfold occurs_in. simpl.
  destruct (lower s); left; reflexivity.
Qed.

End MentionReport.

Section MentionReportWitness.
Import Py Resolution Vocabulary Samples MoreSamples.

Lemma find_entity_in_text_sound_witness :
  find_entity_in_text (Some arr_text) [(Some (str "D1"), verdenova_entity)]
  = Ok [mention_d1]
  /\ In mention_d1 [mention_d1]
  /\ contains (lower (matched_text mention_d1)) (lower arr_text) = true.
Proof.
  split; [reflexivity|]. split; [left; reflexivity|].
  destruct (@find_entity_in_text_sound (Some arr_text)
              [(Some (str "D1"), verdenova_entity)] [mention_d1] mention_d1
              eq_refl (or_introl eq_refl))
    as [s [id [e [c [Hs [_ [_ [_ [_ [_ Hocc]]]]]]]]]].
  inversion Hs; subst. exact Hocc.
Defined.

Lemma find_entity_in_text_complete_witness :
  named [(Some (str "D1"), verdenova_entity)]
  /\ In (Some (str "D1"), verdenova_entity)
        [(Some (str "D1"), verdenova_entity)]
  /\ canonical_name verdenova_entity = Some (str "VerdeNova Solutions")
  /\ contains (lower (str "VerdeNova Solutions")) (lower arr_text) = true
  /\ exists found mn,
       find_entity_in_text (Some arr_text)
                           [(Some (str "D1"), verdenova_entity)]
       = Ok found
       /\ In mn found /\ mention_id mn = Some (str "D1").
Proof.
  assert (Hnamed : named [(Some (str "D1"), verdenova_entity)])
    by (repeat constructor; discriminate).
  assert (Hin : In (Some (str "D1"), verdenova_entity)
                   [(Some (str "D1"), verdenova_entity)])
    by (left; reflexivity).
  assert (Hocc : contains (lower (str "VerdeNova Solutions"))
                          (lower arr_text) = true) by reflexivity.
  split; [exact Hnamed|]. split; [exact Hin|]. split; [reflexivity|].
  split; [exact Hocc|].
  destruct (@find_entity_in_text_complete arr_text
              [(Some (str "D1"), verdenova_entity)] (Some (str "D1"))
              verdenova_entity (str "VerdeNova Solutions")
              Hnamed Hin eq_refl (or_introl Hocc))
    as [found [mn [Hf [Hmn [Hid _]]]]].
  exists found, mn. auto.
Defined.

Lemma find_entity_in_text_empty_name_witness :
  named [(Some (str "D9"), blank_entity)]
  /\ canonical_name blank_entity = Some []
  /\ exists found,
       find_entity_in_text (Some arr_text) [(Some (str "D9"), blank_entity)]
       = Ok found
       /\ In {| mention_id := Some (str "D9"); entity_name := Some [];
                matched_text := [] |} found.
Proof.
  assert (Hnamed : named [(Some (str "D9"), blank_entity)])
    by (repeat constructor; discriminate).
  split; [exact Hnamed|]. split; [reflexivity|].
  exact (@find_entity_in_text_empty_name arr_text
           [(Some (str "D9"), blank_entity)] (Some (str "D9")) blank_entity
           Hnamed (or_introl eq_refl) eq_refl).
Defined.

End MentionReportWitness.

(** ** The relationship table: where an edge comes from *)

Section AggregatorReport.
Import Py Resolution Integration Vocabulary Samples MoreSamples.

Implicit Types (r : Relationship) (rs : list Relationship).

Lemma drop_duplicates_from_incl rs :
  forall seen r, In r (drop_duplicates_from seen rs) -> In r rs.
Proof.
  intros seen r H. apply drop_duplicates_from_In in H.
  destruct H as [before [after [-> _]]].
  apply in_or_app. right. left. reflexivity.
Qed.

(** The first row that a selection keeps. *)
Lemma filter_first {A : Type} (f : A -> bool) (l : list A) (x : A)
      (rest : list A) :
  filter f l = x :: rest ->
  exists before after,
    l = before ++ x :: after /\ f x = true
    /\ forall y, In y before -> f y = false.
Proof.
  induction l as [|a l IH]; simpl; [discriminate|].
  destruct (f a) eqn:Ha.
  - intros H. inversion H; subst. exists [], l.
    split; [reflexivity|]. split; [exact Ha | intros y []].
  - intros H. destruct (IH H) as [before [after [-> [Hx Hb]]]].
    exists (a :: before), after. split; [reflexivity|].
    split; [exact Hx|]. intros y [<- | Hy]; [exact Ha | apply Hb, Hy].
Qed.

Lemma pairs_In source (doc : DocMentions) r :
  In r (pairs source doc) ->
  exists dev inv,
    In dev (developers doc) /\ In inv (investors doc)
    /\ r = {| entity_1 := mention_id dev;
              entity_1_name := entity_name dev;
              entity_2 := mention_id inv;
              entity_2_name := entity_name inv;
              relationship_type := mentioned_together;
              source_type := source;
              source_id := document_id doc |}.
Proof.
  unfold pairs. intros H. apply in_flat_map in H.
  destruct H as [dev [Hdev H]]. apply in_map_iff in H.
  destruct H as [inv [<- Hinv]]. exists dev, inv. auto.
Qed.

Lemma notes_In developers_table (row : InvestorRow) r :
  In r (notes developers_table row) ->
  exists interactions_text project_id dev_row before after,
    PriorInteractions row = Some interactions_text
    /\ In project_id (findall_project_ids interactions_text)
    /\ developers_table = before ++ dev_row :: after
    /\ ProjectID dev_row = Some project_id
    /\ (forall d, In d before -> ProjectID d <> Some project_id)
    /\ r = note_edge row dev_row.
Proof.
  unfold notes. destruct (PriorInteractions row) as [t|]; [|intros []].
  intros H. apply in_flat_map in H. destruct H as [pid [Hpid H]].
  destruct (select_project developers_table pid) as [|d rest] eqn:Hsel;
    [destruct H|].
  destruct H as [<- | []].
  unfold select_project in Hsel. apply filter_first in Hsel.
  destruct Hsel as [before [after [-> [Hd Hb]]]].
  exists t, pid, d, before, after. split; [reflexivity|].
  split; [rewrite findall_project_ids_tokens; exact Hpid|].
  split; [reflexivity|]. split; [|split; [|reflexivity]].
  - unfold eqb_of in Hd. destruct (eq_dec (ProjectID d) (Some pid));
      [assumption | discriminate].
  - intros x Hx Heq. specialize (Hb x Hx). unfold eqb_of in Hb.
    destruct (eq_dec (ProjectID x) (Some pid)); [discriminate | contradiction].
Qed.

(** Every edge of the relationship table comes from the inputs.  An edge of
    type [mentioned_together] joins a developer mention (first) and an
    investor mention (second) of one email or one transcript, and names that
    document as its source.  An edge of type [prior_interaction] joins an
    investor (first) and a developer (second): the investor's notes hold a
    project identifier, and the developer row is the first of the table with
    that project identifier. *)
Theorem create_relationships_table_sound
        (developers_table : list DeveloperRow)
        (investors_table : list InvestorRow)
        (email_mentions transcript_mentions : list DocMentions)
        (r : Relationship) :
  In r (create_relationships_table developers_table investors_table
                                   email_mentions transcript_mentions) ->
  (exists doc dev inv,
      ((In doc email_mentions /\ source_type r = email)
       \/ (In doc transcript_mentions /\ source_type r = transcript))
      /\ In dev (developers doc) /\ In inv (investors doc)
      /\ relationship_type r = mentioned_together
      /\ entity_1 r = mention_id dev /\ entity_1_name r = entity_name dev
      /\ entity_2 r = mention_id inv /\ entity_2_name r = entity_name inv
      /\ source_id r = document_id doc)
  \/ (exists row interactions_text project_id dev_row before after,
        In row investors_table
        /\ PriorInteractions row = Some interactions_text
        /\ In project_id (findall_project_ids interactions_text)
        /\ developers_table = before ++ dev_row :: after
        /\ ProjectID dev_row = Some project_id
        /\ (forall d, In d before -> ProjectID d <> Some project_id)
        /\ relationship_type r = prior_interaction
        /\ source_type r = investor_notes
        /\ entity_1 r = InvestorID row /\ entity_1_name r = FundName row
        /\ entity_2 r = DeveloperID dev_row
        /\ entity_2_name r = DeveloperName dev_row
        /\ source_id r = InvestorID row).
Proof.
  rewrite create_relationships_table_drop. unfold drop_duplicates.
  intros H. apply drop_duplicates_from_incl in H.
  rewrite generated_edges_order in H.
  apply in_app_or in H. destruct H as [H | H].
  - left. apply in_flat_map in H. destruct H as [doc [Hdoc H]].
    apply pairs_In in H. destruct H as [dev [inv [Hdev [Hinv ->]]]].
    exists doc, dev, inv. simpl. tauto.
  - apply in_app_or in H. destruct H as [H | H].
    + left. apply in_flat_map in H. destruct H as [doc [Hdoc H]].
      apply pairs_In in H. destruct H as [dev [inv [Hdev [Hinv ->]]]].
      exists doc, dev, inv. simpl. tauto.
    + right. apply in_flat_map in H. destruct H as [row [Hrow H]].
      apply notes_In in H.
      destruct H as [t [pid [d [before [after [Ht [Hp [Hd [Hpid [Hb ->]]]]]]]]]].
      exists row, t, pid, d, before, after. simpl. tauto.
Qed.

Lemma drop_duplicates_from_fixed rs :
  forall seen,
    NoDup (map edge_key rs) ->
    (forall r, In r rs -> ~ In (edge_key r) seen) ->
    drop_duplicates_from seen rs = rs.
Proof.
  induction rs as [|x rs IH]; intros seen Hnd Hseen; [reflexivity|].
  simpl in *. inversion Hnd as [|? ? Hx Hnd']; subst.
  destruct (in_dec eq_dec (edge_key x) seen) as [Hin | _].
  - exfalso. apply (Hseen x); [left; reflexivity | exact Hin].
  - f_equal. apply IH; [exact Hnd'|].
    intros r Hr [Heq | Hin].
    + apply Hx. rewrite Heq. apply in_map, Hr.
    + apply (Hseen r); [right; exact Hr | exact Hin].
Qed.

(** Deduplication is idempotent and keeps only rows of its input, so a
    second pass over the relationship table changes nothing and the table
    is never longer than the list of generated edges. *)
Theorem drop_duplicates_idempotent (rs : list Relationship) :
  drop_duplicates (drop_duplicates rs) = drop_duplicates rs
  /\ (forall r, In r (drop_duplicates rs) -> In r rs)
  /\ List.length (drop_duplicates rs) <= List.length rs.
Proof.
  unfold drop_duplicates. split; [|split].
  - apply drop_duplicates_from_fixed.
    + apply drop_duplicates_from_NoDup.
    + intros r _ [].
  - intros r. apply drop_duplicates_from_incl.
  - generalize (@nil (entity_id * entity_id * RelationshipType)) as seen.
    induction rs as [|x rs IH]; intros seen; simpl; [lia|].
    destruct (in_dec eq_dec (edge_key x) seen); simpl;
      [specialize (IH seen) | specialize (IH (edge_key x :: seen))]; lia.
Qed.

(** A document with [d] developer mentions and [i] investor mentions adds
    [d * i] edges to the list; with no developer or no investor mention it
    adds none. *)
Theorem pair_edges_count
        (source : SourceType) (doc : DocMentions) (rs : list Relationship) :
  List.length (pair_edges source doc rs)
  = List.length rs
    + List.length (developers doc) * List.length (investors doc)
  /\ (developers doc = [] \/ investors doc = [] ->
      pair_edges source doc rs = rs).
Proof.
  rewrite pair_edges_pairs. unfold pairs. split.
  - rewrite length_app. f_equal.
    induction (developers doc) as [|dev devs IH]; simpl; [reflexivity|].
    rewrite length_app, length_map, IH. reflexivity.
  - intros [-> | ->]; simpl.
    + apply app_nil_r.
    + induction (developers doc) as [|dev devs IH]; simpl;
        [apply app_nil_r | exact IH].
Qed.

(** An investor row without notes, or whose notes hold no project
    identifier of the developer table, adds no edge and causes no
    failure. *)
Theorem investor_edges_unresolved
        (developers_table : list DeveloperRow) (rs : list Relationship)
        (row : InvestorRow) :
  (PriorInteractions row = None ->
   investor_edges developers_table rs row = rs)
  /\ (forall interactions_text,
        PriorInteractions row = Some interactions_text ->
        (forall project_id d,
            In project_id (findall_project_ids interactions_text) ->
            In d developers_table -> ProjectID d <> Some project_id) ->
        investor_edges developers_table rs row = rs).
Proof.
  split.
  - intros H. unfold investor_edges. rewrite H. reflexivity.
  - intros t Ht Hnone. unfold investor_edges. rewrite Ht.
    rewrite project_edge_fold.
    assert (H : flat_map
                  (fun project_id =>
                     match select_project developers_table project_id with
                     | [] => []
                     | dev_row :: _ => [note_edge row dev_row]
                     end) (findall_project_ids t) = []).
    { induction (findall_project_ids t) as [|pid ids IH]; [reflexivity|].
      simpl. rewrite IH by (intros p d Hp; apply Hnone; right; exact Hp).
      assert (Hsel : select_project developers_table pid = []).
      { unfold select_project. apply filter_none. intros d Hd.
        unfold eqb_of. destruct (eq_dec (ProjectID d) (Some pid)) as [Heq|];
          [|reflexivity].
        exfalso. apply (Hnone pid d); [left; reflexivity | exact Hd | exact Heq]. }
      rewrite Hsel. reflexivity. }
    rewrite H. apply app_nil_r.
Qed.

(** Every project identifier found in a text is the letter P followed by
    three digits, and the matches do not overlap: four characters of the
    text for each. *)
Theorem findall_project_ids_well_formed (s : text) :
  (forall project_id,
      In project_id (findall_project_ids s) ->
      exists a b c,
        project_id = ["P"%char; a; b; c]
        /\ is_digit a = true /\ is_digit b = true /\ is_digit c = true)
  /\ 4 * List.length (findall_project_ids s) <= List.length s.
Proof.
  unfold findall_project_ids. split.
  - generalize 0 as skip. induction s as [|x s IH]; intros skip pid H;
      [destruct H|].
    cbn [findall_from] in H. destruct skip as [|k]; [|apply (IH k), H].
    destruct (match_project_id (x :: s)) eqn:Hm; [|apply (IH 0), H].
    destruct H as [<- | H]; [|apply (IH 3), H].
    unfold match_project_id in Hm.
    destruct s as [|a [|b [|c s]]]; try discriminate.
    apply andb_true_iff in Hm. destruct Hm as [Hm Hc].
    apply andb_true_iff in Hm. destruct Hm as [Hm Hb].
    apply andb_true_iff in Hm. destruct Hm as [Hp Ha].
    apply Ascii.eqb_eq in Hp. subst x.
    exists a, b, c. simpl. auto.
  - assert (H : forall skip,
               4 * List.length (findall_from skip s)
               <= List.length s - skip).
    { induction s as [|x s IH]; intros skip; [simpl; lia|].
      cbn [findall_from]. destruct skip as [|k].
      - destruct (match_project_id (x :: s)) eqn:Hm.
        + unfold match_project_id in Hm.
          destruct s as [|a [|b [|c s]]]; try discriminate.
          specialize (IH 3). simpl List.length in *. lia.
        + specialize (IH 0). simpl List.length in *. lia.
      - specialize (IH k). simpl List.length in *. lia. }
    specialize (H 0). lia.
Qed.

End AggregatorReport.

Section AggregatorReportWitness.
Import Py Resolution Integration Vocabulary Samples MoreSamples.

Lemma create_relationships_table_sound_witness :
  In edge_i2_d3
     (create_relationships_table [developer_d3] [investor_i2] [] [])
  /\ exists row,
       In row [investor_i2] /\ entity_1 edge_i2_d3 = InvestorID row.
Proof.
  assert (H : In edge_i2_d3
                 (create_relationships_table [developer_d3] [investor_i2]
                                             [] []))
    by (left; reflexivity).
  split; [exact H|].
  destruct (@create_relationships_table_sound [developer_d3] [investor_i2]
              [] [] edge_i2_d3 H)
    as [[doc [dev [inv [_ [_ [_ [Ht _]]]]]]]
       | [row [t [pid [d [before [after
            [Hrow [_ [_ [_ [_ [_ [_ [_ [He _]]]]]]]]]]]]]]]].
  - discriminate Ht.
  - exists row. split; [exact Hrow | exact He].
Defined.

End AggregatorReportWitness.

(** ** The loops of [main] of the entity resolution script *)

Section MainLoops.
Import Py Resolution Integration ResolutionMain Vocabulary Notions.

Variables developer_map investor_map : EntityMap.

Lemma find_entity_in_text_named (m : EntityMap) (s : text) :
  named m -> find_entity_in_text (Some s) m = Ok (found_in m s).
Proof.
  intros H. simpl. rewrite (find_loop_expected (lower s) H []). reflexivity.
Qed.

Lemma find_entity_in_text_nameless (m : EntityMap) (s : text) :
  nameless m -> find_entity_in_text (Some s) m = Raise AttributeError.
Proof. intros H. simpl. apply find_loop_missing_name, H. Qed.

Lemma email_loop_entries (emails : DataFrame) (todo : list (list cell)) :
  named developer_map -> named investor_map ->
  forall acc,
    email_loop developer_map investor_map emails todo acc
    = Ok (acc ++ entries_of developer_map investor_map
                   (fun row => row_get_default emails row (str "EmailID") None)
                   (email_text emails) todo).
Proof.
  intros Hd Hi. induction todo as [|row todo IH]; intros acc.
  - simpl. rewrite app_nil_r. reflexivity.
  - cbn [email_loop]. cbv zeta.
    rewrite (find_entity_in_text_named _ Hd), (find_entity_in_text_named _ Hi).
    cbn [bind]. unfold entries_of. cbn [flat_map].
    destruct (nonempty (found_in developer_map (email_text emails row))
              || nonempty (found_in investor_map (email_text emails row))).
    + rewrite IH, <- app_assoc. reflexivity.
    + rewrite IH. reflexivity.
Qed.

Lemma transcript_loop_entries (transcripts : DataFrame)
      (todo : list (list cell)) :
  named developer_map -> named investor_map ->
  forall acc,
    transcript_loop developer_map investor_map transcripts todo acc
    = Ok (acc ++ entries_of developer_map investor_map
                   (fun row =>
                      row_get_default transcripts row (str "TranscriptID")
                                      None)
                   (transcript_text transcripts) todo).
Proof.
  intros Hd Hi. induction todo as [|row todo IH]; intros acc.
  - simpl. rewrite app_nil_r. reflexivity.
  - cbn [transcript_loop]. cbv zeta.
    rewrite (find_entity_in_text_named _ Hd), (find_entity_in_text_named _ Hi).
    cbn [bind]. unfold entries_of. cbn [flat_map].
    destruct (nonempty (found_in developer_map
                                 (transcript_text transcripts row))
              || nonempty (found_in investor_map
                                    (transcript_text transcripts row))).
    + rewrite IH, <- app_assoc. reflexivity.
    + rewrite IH. reflexivity.
Qed.

Lemma email_loop_nameless (emails : DataFrame) (todo : list (list cell))
      (acc : list DocMentions) :
  todo <> [] -> nameless developer_map \/ nameless investor_map ->
  email_loop developer_map investor_map emails todo acc
  = Raise AttributeError.
Proof.
  intros Hne H. destruct todo as [|row todo]; [contradiction|].
  cbn [email_loop]. cbv zeta.
  destruct (named_or_missing developer_map) as [Hd | Hd].
  - destruct H as [H | H].
    + rewrite (find_entity_in_text_nameless _ H). reflexivity.
    + rewrite (find_entity_in_text_named _ Hd). cbn [bind].
      rewrite (find_entity_in_text_nameless _ H). reflexivity.
  - rewrite (find_entity_in_text_nameless _ Hd). reflexivity.
Qed.

Lemma transcript_loop_nameless (transcripts : DataFrame)
      (todo : list (list cell)) (acc : list DocMentions) :
  todo <> [] -> nameless developer_map \/ nameless investor_map ->
  transcript_loop developer_map investor_map transcripts todo acc
  = Raise AttributeError.
Proof.
  intros Hne H. destruct todo as [|row todo]; [contradiction|].
  cbn [transcript_loop]. cbv zeta.
  destruct (named_or_missing developer_map) as [Hd | Hd].
  - destruct H as [H | H].
    + rewrite (find_entity_in_text_nameless _ H). reflexivity.
    + rewrite (find_entity_in_text_named _ Hd). cbn [bind].
      rewrite (find_entity_in_text_nameless _ H). reflexivity.
  - rewrite (find_entity_in_text_nameless _ Hd). reflexivity.
Qed.

Lemma named_not_nameless (m : EntityMap) : named m -> ~ nameless m.
Proof.
  intros Hn [id [e [Hin He]]]. unfold named in Hn.
  rewrite Forall_forall in Hn. apply (Hn (id, e) Hin). exact He.
Qed.

End MainLoops.

Section MainResult.
Import Py Resolution Integration ResolutionMain Vocabulary Notions.

Variable list_set : list text -> list text.

Variables developers_df investors_df emails transcripts : DataFrame.

Lemma main_inv (out : Resolved) :
  main list_set developers_df investors_df emails transcripts = Ok out ->
  build_entity_mapping list_set developers_df (str "DeveloperID")
    (str "DeveloperName") (Some (str "AlternateNames"))
  = Ok (developer_map out)
  /\ build_entity_mapping list_set investors_df (str "InvestorID")
       (str "FundName") None
     = Ok (investor_map out)
  /\ email_loop (developer_map out) (investor_map out) emails (rows emails) []
     = Ok (email_mentions out)
  /\ transcript_loop (developer_map out) (investor_map out) transcripts
                     (rows transcripts) []
     = Ok (transcript_mentions out).
Proof.
  unfold main.
  destruct (build_entity_mapping list_set developers_df _ _ _) as [dm|];
    [|discriminate].
  destruct (build_entity_mapping list_set investors_df _ _ _) as [im|];
    [|discriminate].
  cbn [bind].
  destruct (email_loop dm im emails (rows emails) []) as [em|] eqn:Em;
    [|discriminate].
  destruct (transcript_loop dm im transcripts (rows transcripts) [])
    as [tm|] eqn:Tm; [|discriminate].
  cbn [bind]. intros H. inversion H; subst. simpl.
  repeat split; (reflexivity || assumption).
Qed.

(** [main] on two entity tables that build: with every canonical name
    present it returns the two maps and, for the emails and for the
    transcripts, one entry for each document in whose text a developer or an
    investor is found, in the order of the table, with the document's
    identifier and the mentions found.  It fails with an attribute error
    exactly when there is an email or a transcript and some entity of either
    map has a missing canonical name: one record without a name aborts the
    run. *)
Theorem main_result (dm im : EntityMap) :
  build_entity_mapping list_set developers_df (str "DeveloperID")
    (str "DeveloperName") (Some (str "AlternateNames")) = Ok dm ->
  build_entity_mapping list_set investors_df (str "InvestorID")
    (str "FundName") None = Ok im ->
  (named dm -> named im ->
   main list_set developers_df investors_df emails transcripts
   = Ok {| developer_map := dm;
           investor_map := im;
           email_mentions :=
             entries_of dm im
               (fun row => row_get_default emails row (str "EmailID") None)
               (email_text emails) (rows emails);
           transcript_mentions :=
             entries_of dm im
               (fun row =>
                  row_get_default transcripts row (str "TranscriptID") None)
               (transcript_text transcripts) (rows transcripts) |})
  /\ (main list_set developers_df investors_df emails transcripts
      = Raise AttributeError
      <-> (rows emails <> [] \/ rows transcripts <> [])
          /\ (nameless dm \/ nameless im)).
Proof.
  intros Hdm Him. unfold main. rewrite Hdm, Him. cbn [bind]. split.
  - intros Hd Hi.
    rewrite (email_loop_entries emails (rows emails) Hd Hi []).
    cbn [bind app].
    rewrite (transcript_loop_entries transcripts (rows transcripts) Hd Hi []).
    reflexivity.
  - destruct (named_or_missing dm) as [Hd | Hd];
      destruct (named_or_missing im) as [Hi | Hi].
    + rewrite (email_loop_entries emails (rows emails) Hd Hi []).
      cbn [bind app].
      rewrite (transcript_loop_entries transcripts (rows transcripts)
                 Hd Hi []).
      cbn [bind]. split; [discriminate|].
      intros [_ [H | H]]; exfalso;
        [apply (named_not_nameless Hd H) | apply (named_not_nameless Hi H)].
    + destruct (rows emails) as [|row todo] eqn:Erows.
      * cbn [email_loop bind].
        destruct (rows transcripts) as [|trow ttodo] eqn:Trows.
        -- cbn [transcript_loop bind]. split; [discriminate|].
           intros [[H | H] _]; contradiction H; reflexivity.
        -- rewrite (@transcript_loop_nameless dm im transcripts
                      (trow :: ttodo) []) by (discriminate || auto).
           split; [|reflexivity]. intros _. split; [right; discriminate | auto].
      * rewrite (@email_loop_nameless dm im emails (row :: todo) [])
          by (discriminate || auto).
        split; [|reflexivity]. intros _. split; [left; discriminate | auto].
    + destruct (rows emails) as [|row todo] eqn:Erows.
      * cbn [email_loop bind].
        destruct (rows transcripts) as [|trow ttodo] eqn:Trows.
        -- cbn [transcript_loop bind]. split; [discriminate|].
           intros [[H | H] _]; contradiction H; reflexivity.
        -- rewrite (@transcript_loop_nameless dm im transcripts
                      (trow :: ttodo) []) by (discriminate || auto).
           split; [|reflexivity]. intros _. split; [right; discriminate | auto].
      * rewrite (@email_loop_nameless dm im emails (row :: todo) [])
          by (discriminate || auto).
        split; [|reflexivity]. intros _. split; [left; discriminate | auto].
    + destruct (rows emails) as [|row todo] eqn:Erows.
      * cbn [email_loop bind].
        destruct (rows transcripts) as [|trow ttodo] eqn:Trows.
        -- cbn [transcript_loop bind]. split; [discriminate|].
           intros [[H | H] _]; contradiction H; reflexivity.
        -- rewrite (@transcript_loop_nameless dm im transcripts
                      (trow :: ttodo) []) by (discriminate || auto).
           split; [|reflexivity]. intros _. split; [right; discriminate | auto].
      * rewrite (@email_loop_nameless dm im emails (row :: todo) [])
          by (discriminate || auto).
        split; [|reflexivity]. intros _. split; [left; discriminate | auto].
Qed.

End MainResult.

(** ** From a name in an email to an edge of the relationship table *)

Section EndToEnd.
Import Py Resolution Integration ResolutionMain Vocabulary Notions.

Implicit Types (r : Relationship) (rs : list Relationship).

(** A key that first occurs in the first part of a list is kept from that
    part. *)
Lemma drop_duplicates_from_prefix (first_part rest : list Relationship) r x :
  In x first_part -> edge_key r = edge_key x ->
  In r (drop_duplicates_from [] (first_part ++ rest)) ->
  In r first_part.
Proof.
  intros Hx Hk Hr. apply drop_duplicates_from_In in Hr.
  destruct Hr as [before [after [Heq [_ Hb]]]].
  symmetry in Heq. apply app_eq_app in Heq.
  destruct Heq as [l [[-> Hrest] | [-> Hl]]].
  - exfalso. apply Hb. rewrite Hk, map_app.
    apply in_or_app. left. apply in_map, Hx.
  - destruct l as [|y l].
    + exfalso. apply Hb. rewrite Hk. rewrite app_nil_r in Hx.
      apply in_map, Hx.
    + inversion Hl; subst. apply in_or_app. right. left. reflexivity.
Qed.

Lemma entries_of_In (dm im : EntityMap) (id_of : list cell -> cell)
      (text_of : list cell -> text) (table_rows : list (list cell))
      (row : list cell) :
  In row table_rows ->
  nonempty (found_in dm (text_of row)) = true ->
  In {| document_id := id_of row;
        developers := found_in dm (text_of row);
        investors := found_in im (text_of row) |}
     (entries_of dm im id_of text_of table_rows).
Proof.
  intros Hrow Hne. unfold entries_of. apply in_flat_map. exists row.
  split; [exact Hrow|]. rewrite Hne. left. reflexivity.
Qed.

Variable list_set : list text -> list text.

(** The two scripts together: when [main] succeeds and the text of an
    email, its subject and body, holds the canonical name of a developer of
    the developer map and the canonical name of an investor of the investor
    map, case ignored, then the relationship table built from the mention
    lists of [main] holds an edge of type [mentioned_together] from that
    developer to that investor, whose source is an email. *)
Theorem mentioned_names_are_linked
        (developers_df investors_df emails transcripts : DataFrame)
        (out : Resolved) (row : list cell)
        (d i : entity_id) (ed ei : Entity) (cd ci : text)
        (developers_table : list DeveloperRow)
        (investors_table : list InvestorRow) :
  main list_set developers_df investors_df emails transcripts = Ok out ->
  In row (rows emails) ->
  In (d, ed) (developer_map out) -> canonical_name ed = Some cd ->
  contains (lower cd) (lower (email_text emails row)) = true ->
  In (i, ei) (investor_map out) -> canonical_name ei = Some ci ->
  contains (lower ci) (lower (email_text emails row)) = true ->
  exists r,
    In r (create_relationships_table developers_table investors_table
            (email_mentions out) (transcript_mentions out))
    /\ entity_1 r = d /\ entity_2 r = i
    /\ relationship_type r = mentioned_together
    /\ source_type r = email.
Proof.
  intros Hmain Hrow Hd Hcd Hoccd Hi Hci Hocci.
  destruct (@main_inv list_set developers_df investors_df emails transcripts
              out Hmain) as [_ [_ [Hloop _]]].
  set (dm := developer_map out) in *. set (im := investor_map out) in *.
  assert (Hne : rows emails <> []) by (intros E; rewrite E in Hrow; exact Hrow).
  assert (Hnd : named dm).
  { destruct (named_or_missing dm) as [H | H]; [exact H|].
    rewrite (@email_loop_nameless dm im emails (rows emails) [] Hne
               (or_introl H)) in Hloop. discriminate. }
  assert (Hni : named im).
  { destruct (named_or_missing im) as [H | H]; [exact H|].
    rewrite (@email_loop_nameless dm im emails (rows emails) [] Hne
               (or_intror H)) in Hloop. discriminate. }
  rewrite (@email_loop_entries dm im emails (rows emails) Hnd Hni []) in Hloop.
  injection Hloop as Hem. simpl app in Hem.
  destruct (expected_mentions_found (lower (email_text emails row)) d ed Hcd
              (or_introl Hoccd)) as [md [Hmd [Hidd _]]].
  destruct (expected_mentions_found (lower (email_text emails row)) i ei Hci
              (or_introl Hocci)) as [mi [Hmi [Hidi _]]].
  assert (Hfd : In md (found_in dm (email_text emails row))).
  { unfold found_in. apply in_flat_map. exists (d, ed). auto. }
  assert (Hfi : In mi (found_in im (email_text emails row))).
  { unfold found_in. apply in_flat_map. exists (i, ei). auto. }
  assert (Hdoc : In {| document_id :=
                         row_get_default emails row (str "EmailID") None;
                       developers := found_in dm (email_text emails row);
                       investors := found_in im (email_text emails row) |}
                    (email_mentions out)).
  { rewrite <- Hem.
    apply (@entries_of_In dm im
             (fun row => row_get_default emails row (str "EmailID") None)
             (email_text emails) (rows emails) row Hrow).
    destruct (found_in dm (email_text emails row));
      [destruct Hfd | reflexivity]. }
  set (doc := {| document_id := _; developers := _; investors := _ |}) in Hdoc.
  set (x := {| entity_1 := mention_id md; entity_1_name := entity_name md;
               entity_2 := mention_id mi; entity_2_name := entity_name mi;
               relationship_type := mentioned_together;
               source_type := email; source_id := document_id doc |}).
  assert (Hx : In x (flat_map (pairs email) (email_mentions out))).
  { apply in_flat_map. exists doc. split; [exact Hdoc|].
    unfold pairs. apply in_flat_map. exists md. split; [exact Hfd|].
    apply in_map_iff. exists mi. split; [reflexivity | exact Hfi]. }
  rewrite create_relationships_table_drop, generated_edges_order.
  unfold drop_duplicates.
  destruct (drop_duplicates_from_complete
              (flat_map (pairs email) (email_mentions out)
               ++ flat_map (pairs transcript) (transcript_mentions out)
               ++ flat_map (notes developers_table) investors_table)
              [] x (in_or_app _ _ _ (or_introl Hx)) (fun H => H))
    as [r [Hr Hk]].
  exists r. split; [exact Hr|].
  pose proof (@drop_duplicates_from_prefix
                (flat_map (pairs email) (email_mentions out))
                (flat_map (pairs transcript) (transcript_mentions out)
                 ++ flat_map (notes developers_table) investors_table)
                r x Hx Hk Hr) as Hre.
  unfold edge_key in Hk. injection Hk as H1 H2 H3. simpl in H1, H2, H3.
  split; [congruence|]. split; [congruence|]. split; [exact H3|].
  apply in_flat_map in Hre. destruct Hre as [doc' [_ Hre]].
  unfold pairs in Hre. apply in_flat_map in Hre.
  destruct Hre as [dev [_ Hre]]. apply in_map_iff in Hre.
  destruct Hre as [inv [<- _]]. reflexivity.
Qed.

End EndToEnd.

Section MainWitnesses.
Import Py Resolution Integration ResolutionMain Vocabulary Notions.
Import Samples MoreSamples.

Lemma main_result_witness :
  build_entity_mapping dedup unnamed_developers (str "DeveloperID")
    (str "DeveloperName") (Some (str "AlternateNames"))
  = Ok [(Some (str "D1"), unnamed_entity)]
  /\ build_entity_mapping dedup northstar_investors (str "InvestorID")
       (str "FundName") None
     = Ok [(Some (str "I1"), northstar_entity)]
  /\ rows intro_emails <> []
  /\ nameless [(Some (str "D1"), unnamed_entity)]
  /\ main dedup unnamed_developers northstar_investors intro_emails
          no_transcripts
     = Raise AttributeError.
Proof.
  assert (Hn : nameless [(Some (str "D1"), unnamed_entity)]).
  { exists (Some (str "D1")), unnamed_entity.
    split; [left; reflexivity | reflexivity]. }
  assert (He : rows intro_emails <> []) by discriminate.
  split; [reflexivity|]. split; [reflexivity|].
  split; [exact He|]. split; [exact Hn|].
  apply (proj2 (@main_result dedup unnamed_developers northstar_investors
                  intro_emails no_transcripts
                  [(Some (str "D1"), unnamed_entity)]
                  [(Some (str "I1"), northstar_entity)] eq_refl eq_refl)).
  split; [left; exact He | left; exact Hn].
Defined.

Lemma mentioned_names_are_linked_witness :
  main dedup verdenova_developers northstar_investors intro_emails
       no_transcripts
  = Ok resolved_sample
  /\ In intro_row (rows intro_emails)
  /\ contains (lower (str "VerdeNova Solutions"))
              (lower (email_text intro_emails intro_row)) = true
  /\ contains (lower (str "NorthStar Capital"))
              (lower (email_text intro_emails intro_row)) = true
  /\ exists r,
       In r (create_relationships_table [] []
               (email_mentions resolved_sample)
               (transcript_mentions resolved_sample))
       /\ entity_1 r = Some (str "D1") /\ entity_2 r = Some (str "I1")
       /\ relationship_type r = mentioned_together
       /\ source_type r = email.
Proof.
  assert (Hmain : main dedup verdenova_developers northstar_investors
                       intro_emails no_transcripts = Ok resolved_sample)
    by (vm_compute; reflexivity).
  assert (Hrow : In intro_row (rows intro_emails)) by (left; reflexivity).
  assert (Hd : contains (lower (str "VerdeNova Solutions"))
                        (lower (email_text intro_emails intro_row)) = true)
    by (vm_compute; reflexivity).
  assert (Hi : contains (lower (str "NorthStar Capital"))
                        (lower (email_text intro_emails intro_row)) = true)
    by (vm_compute; reflexivity).
  split; [exact Hmain|]. split; [exact Hrow|].
  split; [exact Hd|]. split; [exact Hi|].
  exact (@mentioned_names_are_linked dedup verdenova_developers
           northstar_investors intro_emails no_transcripts resolved_sample
           intro_row (Some (str "D1")) (Some (str "I1"))
           verdenova_entity northstar_entity
           (str "VerdeNova Solutions") (str "NorthStar Capital") [] []
           Hmain Hrow (or_introl eq_refl) eq_refl Hd
           (or_introl eq_refl) eq_refl Hi).
Defined.

End MainWitnesses.

(** ** The communications table *)

Section CommunicationsFacts.
Import Py Resolution Integration ResolutionMain Tables Vocabulary Notions.

Variable dumps : list entity_id -> text.

Implicit Types (c : Communication) (row : list cell).

Lemma row_get_default_has (df : DataFrame) row (col : text) (default : cell) :
  has_column df col = true ->
  row_get df row col = Ok (row_get_default df row col default).
Proof.
  unfold has_column, row_get, row_get_default.
  destruct (column_index col (columns df)); [reflexivity | discriminate].
Qed.

Lemma first_mentions_missing (mentions : list DocMentions) :
  first_mentions mentions None = None.
Proof.
  unfold first_mentions. apply find_nothing. intros m _.
  unfold cell_eqb. destruct (document_id m); reflexivity.
Qed.

Lemma communications_loop_In (of_row : list cell -> result Communication)
      (todo : list (list cell)) :
  forall acc cs c,
    communications_loop of_row todo acc = Ok cs -> In c cs ->
    In c acc \/ exists row, In row todo /\ of_row row = Ok c.
Proof.
  induction todo as [|row todo IH]; intros acc cs c H Hc; simpl in H.
  - inversion H; subst. left. exact Hc.
  - destruct (of_row row) as [c0|] eqn:Hrow; [|discriminate]. simpl in H.
    destruct (IH _ _ _ H Hc) as [Hacc | [r [Hr Hok]]].
    + apply in_app_or in Hacc. destruct Hacc as [Hacc | [<- | []]].
      * left. exact Hacc.
      * right. exists row. split; [left; reflexivity | exact Hrow].
    + right. exists r. split; [right; exact Hr | exact Hok].
Qed.

Lemma communications_loop_ids (of_row : list cell -> result Communication)
      (id_of : list cell -> cell) (kind : CommunicationType)
      (todo : list (list cell)) :
  (forall row c, of_row row = Ok c ->
                 communication_id c = id_of row
                 /\ communication_type c = kind) ->
  (forall row, In row todo -> exists c, of_row row = Ok c) ->
  forall acc,
    exists cs,
      communications_loop of_row todo acc = Ok (acc ++ cs)
      /\ map communication_id cs = map id_of todo
      /\ map communication_type cs = repeat kind (List.length todo).
Proof.
  intros Hshape. induction todo as [|row todo IH]; intros Hok acc.
  - exists []. simpl. rewrite app_nil_r. auto.
  - destruct (Hok row (or_introl eq_refl)) as [c Hc].
    destruct (IH (fun r Hr => Hok r (or_intror Hr)) (acc ++ [c]))
      as [cs [Hloop [Hids Hkinds]]].
    exists (c :: cs). simpl. rewrite Hc. simpl.
    rewrite Hloop, <- app_assoc.
    destruct (Hshape row c Hc) as [Hid Hkind].
    rewrite Hid, Hkind, Hids, Hkinds. auto.
Qed.

Lemma email_communication_of_shape (emails : DataFrame)
      (mentions : list DocMentions) row c :
  email_communication_of dumps emails mentions row = Ok c ->
  communication_id c = row_get_default emails row (str "EmailID") None
  /\ communication_type c = email_communication.
Proof.
  unfold email_communication_of, row_get, row_get_default.
  destruct (column_index (str "EmailID") (columns emails)); [|discriminate].
  simpl. intros H. inversion H. auto.
Qed.

Lemma transcript_communication_of_shape (transcripts : DataFrame)
      (mentions : list DocMentions) row c :
  transcript_communication_of dumps transcripts mentions row = Ok c ->
  communication_id c
  = row_get_default transcripts row (str "TranscriptID") None
  /\ communication_type c = transcript_communication.
Proof.
  unfold transcript_communication_of, row_get, row_get_default.
  destruct (column_index (str "TranscriptID") (columns transcripts));
    [|discriminate].
  simpl. intros H. inversion H. auto.
Qed.

Lemma email_communication_of_ok (emails : DataFrame)
      (mentions : list DocMentions) row :
  has_column emails (str "EmailID") = true ->
  exists c, email_communication_of dumps emails mentions row = Ok c.
Proof.
  intros H. unfold email_communication_of.
  rewrite (@row_get_default_has emails row (str "EmailID") None H).
  simpl. eauto.
Qed.

Lemma transcript_communication_of_ok (transcripts : DataFrame)
      (mentions : list DocMentions) row :
  has_column transcripts (str "TranscriptID") = true ->
  exists c, transcript_communication_of dumps transcripts mentions row = Ok c.
Proof.
  intros H. unfold transcript_communication_of.
  rewrite (@row_get_default_has transcripts row (str "TranscriptID") None H).
  simpl. eauto.
Qed.

(** The communications table lists every email and then every transcript,
    one row each in the order of the tables, under the document's
    identifier, whatever the mention lists hold; it fails only for a missing
    identifier column: with a key error for [EmailID] when there is an
    email, else with a key error for [TranscriptID] when there is a
    transcript. *)
Theorem create_communications_table_rows
        (emails transcripts : DataFrame)
        (email_mentions transcript_mentions : list DocMentions) :
  (has_column emails (str "EmailID") = true ->
   has_column transcripts (str "TranscriptID") = true ->
   exists cs,
     create_communications_table dumps emails transcripts
                                 email_mentions transcript_mentions
     = Ok cs
     /\ map communication_id cs
        = map (fun row => row_get_default emails row (str "EmailID") None)
              (rows emails)
          ++ map (fun row =>
                    row_get_default transcripts row (str "TranscriptID") None)
                 (rows transcripts)
     /\ map communication_type cs
        = repeat email_communication (List.length (rows emails))
          ++ repeat transcript_communication
                    (List.length (rows transcripts)))
  /\ (rows emails <> [] ->
      has_column emails (str "EmailID") = false ->
      create_communications_table dumps emails transcripts
                                  email_mentions transcript_mentions
      = Raise (KeyError (str "EmailID")))
  /\ (has_column emails (str "EmailID") = true ->
      rows transcripts <> [] ->
      has_column transcripts (str "TranscriptID") = false ->
      create_communications_table dumps emails transcripts
                                  email_mentions transcript_mentions
      = Raise (KeyError (str "TranscriptID"))).
Proof.
  unfold create_communications_table. split; [|split].
  - intros He Ht.
    destruct (@communications_loop_ids
                (email_communication_of dumps emails email_mentions)
                (fun row => row_get_default emails row (str "EmailID") None)
                email_communication (rows emails)
                (email_communication_of_shape emails email_mentions)
                (fun row _ => email_communication_of_ok emails email_mentions
                                row He) [])
      as [cs1 [H1 [Hid1 Hk1]]].
    rewrite H1. cbn [bind app].
    destruct (@communications_loop_ids
                (transcript_communication_of dumps transcripts
                                             transcript_mentions)
                (fun row =>
                   row_get_default transcripts row (str "TranscriptID") None)
                transcript_communication (rows transcripts)
                (transcript_communication_of_shape transcripts
                                                   transcript_mentions)
                (fun row _ => transcript_communication_of_ok transcripts
                                transcript_mentions row Ht) cs1)
      as [cs2 [H2 [Hid2 Hk2]]].
    exists (cs1 ++ cs2). rewrite H2, !map_app, Hid1, Hid2, Hk1, Hk2. auto.
  - intros Hne He. destruct (rows emails) as [|row todo]; [contradiction|].
    simpl. unfold email_communication_of at 1.
    rewrite (row_get_absent emails row (str "EmailID") He). reflexivity.
  - intros He Hne Ht.
    destruct (@communications_loop_ids
                (email_communication_of dumps emails email_mentions)
                (fun row => row_get_default emails row (str "EmailID") None)
                email_communication (rows emails)
                (email_communication_of_shape emails email_mentions)
                (fun row _ => email_communication_of_ok emails email_mentions
                                row He) [])
      as [cs1 [H1 _]].
    rewrite H1. cbn [bind app].
    destruct (rows transcripts) as [|row todo]; [contradiction|].
    simpl. unfold transcript_communication_of at 1.
    rewrite (row_get_absent transcripts row (str "TranscriptID") Ht).
    reflexivity.
Qed.

Lemma create_communications_table_In
      (emails transcripts : DataFrame)
      (email_mentions transcript_mentions : list DocMentions)
      (cs : list Communication) c :
  create_communications_table dumps emails transcripts
                              email_mentions transcript_mentions = Ok cs ->
  In c cs ->
  (exists row, In row (rows emails)
               /\ email_communication_of dumps emails email_mentions row
                  = Ok c)
  \/ (exists row, In row (rows transcripts)
                  /\ transcript_communication_of dumps transcripts
                       transcript_mentions row = Ok c).
Proof.
  unfold create_communications_table. intros H Hc.
  destruct (communications_loop
              (email_communication_of dumps emails email_mentions)
              (rows emails) []) as [cs1|] eqn:H1; [|discriminate].
  simpl in H.
  eapply communications_loop_In in Hc; [|exact H].
  destruct Hc as [Hacc | Hrow]; [|right; exact Hrow].
  eapply communications_loop_In in Hacc; [|exact H1].
  destruct Hacc as [[] | Hrow]. left. exact Hrow.
Qed.

(** A document without identifier is listed without any mention, even when
    the mention list holds an entry without identifier: the missing value is
    equal to no identifier. *)
Theorem communication_without_identifier
        (emails transcripts : DataFrame)
        (email_mentions transcript_mentions : list DocMentions)
        (cs : list Communication) (c : Communication) :
  create_communications_table dumps emails transcripts
                              email_mentions transcript_mentions = Ok cs ->
  In c cs -> communication_id c = None ->
  mentioned_developers c = dumps [] /\ mentioned_investors c = dumps [].
Proof.
  intros H Hc Hid.
  destruct (@create_communications_table_In emails transcripts email_mentions
              transcript_mentions cs c H Hc)
    as [[row [_ Hrow]] | [row [_ Hrow]]].
  - unfold email_communication_of in Hrow.
    destruct (row_get emails row (str "EmailID")) as [i|]; [|discriminate].
    simpl in Hrow. inversion Hrow; subst c. simpl in *. subst i.
    rewrite first_mentions_missing. auto.
  - unfold transcript_communication_of in Hrow.
    destruct (row_get transcripts row (str "TranscriptID")) as [i|];
      [|discriminate].
    simpl in Hrow. inversion Hrow; subst c. simpl in *. subst i.
    rewrite first_mentions_missing. auto.
Qed.

End CommunicationsFacts.

(** ** The communications table and the mention extractor agree *)

Section CommunicationsAgree.
Import Py Resolution Integration ResolutionMain Tables Vocabulary Notions.

Variable dumps : list entity_id -> text.
Variable list_set : list text -> list text.

Lemma find_app {A : Type} (f : A -> bool) (l1 l2 : list A) :
  find f (l1 ++ l2)
  = match find f l1 with
    | Some y => Some y
    | None => find f l2
    end.
Proof.
  induction l1 as [|a l1 IH]; [reflexivity|].
  simpl. destruct (f a); [reflexivity | exact IH].
Qed.

Lemma first_mentions_others (dm im : EntityMap) (id_of : list cell -> cell)
      (text_of : list cell -> text) (table_rows : list (list cell))
      (x : text) :
  (forall r, In r table_rows -> id_of r <> Some x) ->
  first_mentions (entries_of dm im id_of text_of table_rows) (Some x) = None.
Proof.
  intros H. unfold first_mentions. apply find_nothing. intros m Hm.
  unfold entries_of in Hm. apply in_flat_map in Hm.
  destruct Hm as [r [Hr Hm]].
  destruct (nonempty _ || nonempty _); [|destruct Hm].
  destruct Hm as [<- | []]. simpl. specialize (H r Hr).
  unfold cell_eqb. destruct (id_of r) as [y|]; [|reflexivity].
  unfold eqb_of. destruct (eq_dec y x); [congruence | reflexivity].
Qed.

Lemma first_mentions_of_row (dm im : EntityMap) (id_of : list cell -> cell)
      (text_of : list cell -> text) (before after : list (list cell))
      (row : list cell) (x : text) :
  id_of row = Some x ->
  (forall r, In r (before ++ after) -> id_of r <> Some x) ->
  match first_mentions
          (entries_of dm im id_of text_of (before ++ row :: after))
          (Some x) with
  | Some m => developers m = found_in dm (text_of row)
              /\ investors m = found_in im (text_of row)
  | None => found_in dm (text_of row) = []
            /\ found_in im (text_of row) = []
  end.
Proof.
  intros Hid Hother.
  assert (Hb : first_mentions (entries_of dm im id_of text_of before)
                              (Some x) = None).
  { apply first_mentions_others. intros r Hr. apply Hother.
    apply in_or_app. left. exact Hr. }
  assert (Ha : first_mentions (entries_of dm im id_of text_of after)
                              (Some x) = None).
  { apply first_mentions_others. intros r Hr. apply Hother.
    apply in_or_app. right. exact Hr. }
  unfold first_mentions, entries_of in *.
  rewrite flat_map_app, find_app, Hb. cbn [flat_map].
  rewrite find_app.
  destruct (nonempty (found_in dm (text_of row))
            || nonempty (found_in im (text_of row))) eqn:Hne.
  - cbn [find document_id]. rewrite Hid. unfold cell_eqb, eqb_of.
    destruct (eq_dec x x); [|contradiction]. simpl. auto.
  - cbn [find]. rewrite Ha. apply orb_false_iff in Hne.
    destruct Hne as [H1 H2].
    destruct (found_in dm (text_of row)); [|discriminate].
    destruct (found_in im (text_of row)); [|discriminate]. auto.
Qed.

Lemma main_email_mentions
      (developers_df investors_df emails transcripts : DataFrame)
      (out : Resolved) :
  main list_set developers_df investors_df emails transcripts = Ok out ->
  rows emails <> [] ->
  named (developer_map out) /\ named (investor_map out)
  /\ email_mentions out
     = entries_of (developer_map out) (investor_map out)
         (fun row => row_get_default emails row (str "EmailID") None)
         (email_text emails) (rows emails).
Proof.
  intros Hmain Hne.
  destruct (@main_inv list_set developers_df investors_df emails transcripts
              out Hmain) as [_ [_ [Hloop _]]].
  set (dm := developer_map out) in *. set (im := investor_map out) in *.
  assert (Hnd : named dm).
  { destruct (named_or_missing dm) as [H | H]; [exact H|].
    rewrite (@email_loop_nameless dm im emails (rows emails) [] Hne
               (or_introl H)) in Hloop. discriminate. }
  assert (Hni : named im).
  { destruct (named_or_missing im) as [H | H]; [exact H|].
    rewrite (@email_loop_nameless dm im emails (rows emails) [] Hne
               (or_intror H)) in Hloop. discriminate. }
  rewrite (@email_loop_entries dm im emails (rows emails) Hnd Hni []) in Hloop.
  injection Hloop as Hem. simpl app in Hem. auto.
Qed.

(** The two scripts together: for an email whose identifier no other email
    bears, the communications table built from the mention lists of [main]
    lists, as mentioned developers and investors, the identifiers of the
    mentions that the extractor finds in that email's subject and body. *)
Theorem communications_agree_with_extractor
        (developers_df investors_df emails transcripts : DataFrame)
        (out : Resolved) (cs : list Communication) (c : Communication)
        (before after : list (list cell)) (row : list cell) (x : text) :
  main list_set developers_df investors_df emails transcripts = Ok out ->
  create_communications_table dumps emails transcripts
    (email_mentions out) (transcript_mentions out) = Ok cs ->
  rows emails = before ++ row :: after ->
  row_get_default emails row (str "EmailID") None = Some x ->
  (forall r, In r (before ++ after) ->
             row_get_default emails r (str "EmailID") None <> Some x) ->
  In c cs -> communication_type c = email_communication ->
  communication_id c = Some x ->
  exists devs_found invs_found,
    find_entity_in_text (Some (email_text emails row)) (developer_map out)
    = Ok devs_found
    /\ find_entity_in_text (Some (email_text emails row)) (investor_map out)
       = Ok invs_found
    /\ mentioned_developers c = dumps (map mention_id devs_found)
    /\ mentioned_investors c = dumps (map mention_id invs_found).
Proof.
  intros Hmain Hcs Hrows Hid Hother Hc Hkind Hcid.
  assert (Hne : rows emails <> []).
  { rewrite Hrows. destruct before; discriminate. }
  destruct (main_email_mentions _ _ _ _ Hmain Hne) as [Hnd [Hni Hem]].
  exists (found_in (developer_map out) (email_text emails row)),
         (found_in (investor_map out) (email_text emails row)).
  split; [apply find_entity_in_text_named, Hnd|].
  split; [apply find_entity_in_text_named, Hni|].
  destruct (@create_communications_table_In dumps emails transcripts
              (email_mentions out) (transcript_mentions out) cs c Hcs Hc)
    as [[row' [Hrow' Hok]] | [row' [_ Hok]]].
  - destruct (email_communication_of_shape _ _ _ _ Hok) as [Hcid' _].
    assert (Hsame : row' = row).
    { rewrite Hrows in Hrow'. apply in_app_or in Hrow'.
      destruct Hrow' as [H | [H | H]]; [| symmetry; exact H |].
      - exfalso. apply (Hother row'); [apply in_or_app; left; exact H|].
        congruence.
      - exfalso. apply (Hother row'); [apply in_or_app; right; exact H|].
        congruence. }
    subst row'. unfold email_communication_of in Hok.
    destruct (row_get emails row (str "EmailID")) as [i|]; [|discriminate].
    simpl in Hok. inversion Hok; subst c. simpl in *. subst i.
    pose proof (@first_mentions_of_row (developer_map out) (investor_map out)
                  (fun r => row_get_default emails r (str "EmailID") None)
                  (email_text emails) before after row x Hid Hother) as Hfm.
    rewrite Hem, Hrows.
    match goal with
    | |- context [first_mentions ?e (Some x)] =>
        change (first_mentions _ (Some x))
          with (first_mentions e (Some x)) in Hfm;
        destruct (first_mentions e (Some x)) as [m|]
    end.
    + destruct Hfm as [-> ->]. auto.
    + destruct Hfm as [-> ->]. auto.
  - exfalso.
    destruct (transcript_communication_of_shape _ _ _ _ Hok) as [_ Hk].
    congruence.
Qed.

End CommunicationsAgree.

(** ** The enriched projects table and the entity map *)

Section AlternateNames.
Import Py Resolution Integration ResolutionMain Tables Vocabulary Notions.

Lemma map_filter_swap {A B : Type} (f : A -> B) (p : B -> bool)
      (l : list A) :
  map f (filter (fun x => p (f x)) l) = filter p (map f l).
Proof.
  induction l as [|a l IH]; [reflexivity|].
  simpl. destruct (p (f a)); simpl; rewrite IH; reflexivity.
Qed.

Lemma split_on_from_not_empty (sep : ascii) (s field : text) :
  split_on_from sep field s <> [].
Proof.
  revert field. induction s as [|c s IH]; intros field; simpl;
    [discriminate|].
  destruct (Ascii.eqb c sep); [discriminate | apply IH].
Qed.

(** The list of alternate names of the enriched projects table and the
    alternate names of the entity map come from the same field and differ
    only by the empty pieces: the entity map holds the list of the projects
    table without its empty strings.  A field that is not missing always
    gives a list that is not empty, a missing field the empty list. *)
Theorem alternate_names_list_and_entity_map
        (df : DataFrame) (row : list cell) :
  (has_column df (str "AlternateNames") = true ->
   parse_alternates df row (Some (str "AlternateNames"))
   = Ok (filter truthy
                (alternate_names_list
                   (row_get_default df row (str "AlternateNames") None))))
  /\ (forall s, alternate_names_list (Some s) <> [])
  /\ alternate_names_list None = [].
Proof.
  split; [|split].
  - intros H. unfold parse_alternates. rewrite H.
    rewrite (@row_get_default_has df row (str "AlternateNames") None H).
    cbn [truthy str list_ascii_of_string andb bind].
    destruct (row_get_default df row _ None) as [s|]; [|reflexivity].
    unfold alternate_names_list. rewrite <- map_filter_swap. reflexivity.
  - intros s H. unfold alternate_names_list in H.
    apply map_eq_nil in H. apply (split_on_from_not_empty _ _ _ H).
  - reflexivity.
Qed.

End AlternateNames.

Section CommunicationsWitnesses.
Import Py Resolution Integration ResolutionMain Tables Samples MoreSamples.

Lemma communication_without_identifier_witness :
  create_communications_table plain_dumps anonymous_emails no_transcripts
    [anonymous_mentions] []
  = Ok [anonymous_communication]
  /\ In anonymous_communication [anonymous_communication]
  /\ communication_id anonymous_communication = None
  /\ mentioned_developers anonymous_communication = plain_dumps []
  /\ mentioned_investors anonymous_communication = plain_dumps [].
Proof.
  assert (H : create_communications_table plain_dumps anonymous_emails
                no_transcripts [anonymous_mentions] []
              = Ok [anonymous_communication]) by (vm_compute; reflexivity).
  split; [exact H|]. split; [left; reflexivity|]. split; [reflexivity|].
  exact (@communication_without_identifier plain_dumps anonymous_emails
           no_transcripts [anonymous_mentions] [] [anonymous_communication]
           anonymous_communication H (or_introl eq_refl) eq_refl).
Defined.

Lemma communications_agree_with_extractor_witness :
  main dedup verdenova_developers northstar_investors intro_emails
       no_transcripts
  = Ok resolved_sample
  /\ create_communications_table plain_dumps intro_emails no_transcripts
       (email_mentions resolved_sample) (transcript_mentions resolved_sample)
     = Ok [intro_communication]
  /\ rows intro_emails = [] ++ intro_row :: []
  /\ row_get_default intro_emails intro_row (str "EmailID") None
     = Some (str "E001")
  /\ exists devs_found invs_found,
       find_entity_in_text (Some (email_text intro_emails intro_row))
                           (developer_map resolved_sample)
       = Ok devs_found
       /\ find_entity_in_text (Some (email_text intro_emails intro_row))
                              (investor_map resolved_sample)
          = Ok invs_found
       /\ mentioned_developers intro_communication
          = plain_dumps (map mention_id devs_found)
       /\ mentioned_investors intro_communication
          = plain_dumps (map mention_id invs_found).
Proof.
  assert (Hmain : main dedup verdenova_developers northstar_investors
                       intro_emails no_transcripts = Ok resolved_sample)
    by (vm_compute; reflexivity).
  assert (Hcs : create_communications_table plain_dumps intro_emails
                  no_transcripts (email_mentions resolved_sample)
                  (transcript_mentions resolved_sample)
                = Ok [intro_communication]) by (vm_compute; reflexivity).
  assert (Hid : row_get_default intro_emails intro_row (str "EmailID") None
                = Some (str "E001")) by (vm_compute; reflexivity).
  split; [exact Hmain|]. split; [exact Hcs|]. split; [reflexivity|].
  split; [exact Hid|].
  refine (@communications_agree_with_extractor plain_dumps dedup
            verdenova_developers northstar_investors intro_emails
            no_transcripts resolved_sample [intro_communication]
            intro_communication [] [] intro_row (str "E001")
            Hmain Hcs eq_refl Hid _ (or_introl eq_refl) eq_refl eq_refl).
  intros r [].
Defined.

End CommunicationsWitnesses.
